(** * RIMM, ROMM and ERIMM encodings, and the DSLR spectral-sensitivity store

    A shallow embedding of [colour/models/rgb/transfer_functions/rimm_romm_rgb.py]
    and of the lookup table built at the end of
    [colour/characterisation/dataset/cameras/dslr/spectral_sensitivities.py].

    Numbers.  A Python / numpy float is modelled by [npfloat]: a real number,
    or one of the three IEEE special values.  Arithmetic on finite values is
    exact: binary64 rounding, overflow and the sign of zero are not modelled
    (a zero denominator is taken as [+0]).  The special values follow the
    IEEE rules numpy applies (numpy warns and does not raise).  Python's own
    scalar arithmetic differs from numpy's in two places the module reaches,
    and both are modelled as exceptions: a float division by zero, and a
    fractional power of a negative float.

    Limits of the model.  A statement that gives the exact value of a finite
    result holds of the formulas over the reals; binary64 can differ from it
    in the last place, and by more next to the largest float (overflow) and
    where a comparison sits on a jump of a curve.  [I_max] is a Python [int]
    and its conversion to a float is taken as exact: numpy keeps an [I_max]
    of more than 64 bits as a Python object, and from the bit depth 1024 on
    the conversion raises [OverflowError]; the statements that depend on it
    are for bit depths up to 64. *)

From stdpp Require Import base gmap strings.
From Stdlib Require Import Reals Lra Lia ZArith QArith.
From Stdlib Require Import String Ascii List.
Import ListNotations.

Local Open Scope R_scope.

(** ** Floating-point values *)

Inductive npfloat : Type :=
| NaN
| NegInf
| PosInf
| Num (r : R).



(** Comparisons: any comparison with [NaN] is false. *)

Definition Rltb (x y : R) : bool := if Rlt_dec x y then true else false.
Definition Rleb (x y : R) : bool := if Rle_dec x y then true else false.

Definition flt_lt (a b : npfloat) : bool :=
  match a, b with
  | NaN, _ | _, NaN => false
  | NegInf, NegInf => false
  | NegInf, _ => true
  | _, NegInf => false
  | PosInf, _ => false
  | Num _, PosInf => true
  | Num x, Num y => Rltb x y
  end.

Definition flt_le (a b : npfloat) : bool :=
  match a, b with
  | NaN, _ | _, NaN => false
  | NegInf, _ => true
  | _, NegInf => false
  | _, PosInf => true
  | PosInf, Num _ => false
  | Num x, Num y => Rleb x y
  end.

Definition flt_gt (a b : npfloat) : bool := flt_lt b a.
Definition flt_ge (a b : npfloat) : bool := flt_le b a.

(** Sign of a real, used by the rules for products and quotients that
    involve an infinity. *)

Inductive sign : Type := Neg | Zero | Pos.

Definition Rsign (r : R) : sign :=
  if Rlt_dec r 0 then Neg else if Rlt_dec 0 r then Pos else Zero.

Definition fneg (a : npfloat) : npfloat :=
  match a with
  | NaN => NaN
  | NegInf => PosInf
  | PosInf => NegInf
  | Num r => Num (- r)
  end.

Definition fadd (a b : npfloat) : npfloat :=
  match a, b with
  | NaN, _ | _, NaN => NaN
  | PosInf, NegInf | NegInf, PosInf => NaN
  | PosInf, _ | _, PosInf => PosInf
  | NegInf, _ | _, NegInf => NegInf
  | Num x, Num y => Num (x + y)
  end.

Definition fsub (a b : npfloat) : npfloat := fadd a (fneg b).

(** An infinity of the sign of [s]; [0 * inf] is [NaN]. *)
Definition inf_of_sign (s : sign) : npfloat :=
  match s with Neg => NegInf | Zero => NaN | Pos => PosInf end.

Definition fmul (a b : npfloat) : npfloat :=
  match a, b with
  | NaN, _ | _, NaN => NaN
  | Num x, Num y => Num (x * y)
  | PosInf, PosInf | NegInf, NegInf => PosInf
  | PosInf, NegInf | NegInf, PosInf => NegInf
  | PosInf, Num r | Num r, PosInf => inf_of_sign (Rsign r)
  | NegInf, Num r | Num r, NegInf => fneg (inf_of_sign (Rsign r))
  end.

(** numpy's true division: [x / 0] is an infinity of the sign of [x], and
    [0 / 0] is [NaN]. *)
Definition fdiv (a b : npfloat) : npfloat :=
  match a, b with
  | NaN, _ | _, NaN => NaN
  | Num x, Num y =>
      if Req_dec_T y 0 then inf_of_sign (Rsign x) else Num (x / y)
  | Num _, PosInf | Num _, NegInf => Num 0
  | PosInf, PosInf | PosInf, NegInf | NegInf, PosInf | NegInf, NegInf => NaN
  | PosInf, Num r => if Rlt_dec r 0 then NegInf else PosInf
  | NegInf, Num r => if Rlt_dec r 0 then PosInf else NegInf
  end.

(** [x ** y] on arrays, for the exponents the module uses ([1 / 1.8], [1.8],
    [0.45] and [1 / 0.45]): positive and not integers.  For such an exponent
    a negative base gives [NaN], zero gives zero, and both infinities give
    [+inf]. *)
Definition fpow (a : npfloat) (y : R) : npfloat :=
  match a with
  | NaN => NaN
  | NegInf => PosInf
  | PosInf => PosInf
  | Num r =>
      if Rlt_dec 0 r then Num (Rpower r y)
      else if Req_dec_T r 0 then Num 0 else NaN
  end.

(** [np.log]: [-inf] at zero, [NaN] below it. *)
Definition flog (a : npfloat) : npfloat :=
  match a with
  | NaN => NaN
  | NegInf => NaN
  | PosInf => PosInf
  | Num r =>
      if Rlt_dec 0 r then Num (ln r)
      else if Req_dec_T r 0 then NegInf else NaN
  end.

(** [np.exp]. *)
Definition fexp (a : npfloat) : npfloat :=
  match a with
  | NaN => NaN
  | NegInf => Num 0
  | PosInf => PosInf
  | Num r => Num (exp r)
  end.

(** [np.round]: to the nearest integer, a tie going to the even one. *)
Definition round_half_even (r : R) : Z :=
  let f := Int_part r in
  let d := r - IZR f in
  if Rlt_dec d (1 / 2) then f
  else if Rlt_dec (1 / 2) d then (f + 1)%Z
  else if Z.even f then f else (f + 1)%Z.

Definition np_round (a : npfloat) : npfloat :=
  match a with
  | Num r => Num (IZR (round_half_even r))
  | _ => a
  end.

(** [np.where(c, a, b)] on one element: both [a] and [b] are evaluated by the
    caller, and [c] picks one. *)
Definition np_where (c : bool) (a b : npfloat) : npfloat :=
  if c then a else b.

(** [np.select(condlist, choicelist)] on one element: the choice of the
    first condition that holds, and the default [0] when none does. *)
Fixpoint np_select (cases : list (bool * npfloat)) : npfloat :=
  match cases with
  | [] => Num 0
  | (c, v) :: rest => if c then v else np_select rest
  end.


(** Modelled from the spec: [as_numeric] of [colour.utilities] is not in the
    sources.  The spec has the functions "round to nearest integer and return
    as integer-typed result", or return the float: the conversion changes the
    type and keeps the value, and the model keeps values only. *)
Definition as_numeric (a : npfloat) : npfloat := a.

(** ** Exceptions of Python's scalar arithmetic *)

Inductive exn : Type :=
| ZeroDivisionError
| TypeError.

Inductive result (A : Type) : Type :=
| Ok (a : A)
| Raise (e : exn).
Arguments Ok {A} a.
Arguments Raise {A} e.

Definition bind {A B} (m : result A) (k : A -> result B) : result B :=
  match m with
  | Ok a => k a
  | Raise e => Raise e
  end.

Notation "'let!' x ':=' m 'in' k" := (bind m (fun x => k))
  (at level 10, x name, m at level 100, k at level 200).

Definition raises {A} (m : result A) : bool :=
  match m with Ok _ => false | Raise _ => true end.

(** ** Transfer functions *)

Module RimmRomm.

(** [I_max = 2 ** bit_depth - 1].  [bit_depth] is a Python [int]; for a
    negative one Python's [**] returns the float [2 ** bit_depth]. *)
Definition I_max (bit_depth : Z) : R := powerRZ 2 bit_depth - 1.

(** [E_t = 16 ** (1.8 / (1 - 1.8))], the knee of the ROMM curve. *)
Definition E_t_ROMM : R := Rpower 16 (1.8 / (1 - 1.8)).

Definition oetf_ROMMRGB (X : npfloat) (bit_depth : Z) (out_int : bool)
  : npfloat :=
  let I_max := I_max bit_depth in
  let E_t := E_t_ROMM in
  let X_p :=
    np_where (flt_lt X (Num E_t))
      (fmul (fmul X (Num 16)) (Num I_max))
      (fmul (fpow X (1 / 1.8)) (Num I_max)) in
  if out_int then as_numeric (np_round X_p)
  else as_numeric (fdiv X_p (Num I_max)).

Definition eotf_ROMMRGB (X_p : npfloat) (bit_depth : Z) (in_int : bool)
  : npfloat :=
  let I_max := I_max bit_depth in
  let X_p := if negb in_int then fmul X_p (Num I_max) else X_p in
  let E_t := E_t_ROMM in
  let X :=
    np_where (flt_lt X_p (Num (16 * E_t * I_max)))
      (fdiv X_p (Num (16 * I_max)))
      (fpow (fdiv X_p (Num I_max)) 1.8) in
  as_numeric X.

Definition oetf_ProPhotoRGB := oetf_ROMMRGB.
Definition eotf_ProPhotoRGB := eotf_ROMMRGB.

(** [V_clip = 1.099 * E_clip ** 0.45 - 0.099] is computed on Python scalars.
    For a negative [E_clip] the power is a complex number under Python 3 (and
    a [ValueError] under Python 2); numpy then refuses the in-place product
    of the float array by the complex [q] with a [TypeError], so both RIMM
    functions raise. *)
Definition py_pow (x y : R) : R :=
  if Req_dec_T x 0 then 0 else Rpower x y.

Definition V_clip (E_clip : R) : R := 1.099 * py_pow E_clip 0.45 - 0.099.

Definition V_clip_of (E_clip : R) : result R :=
  if Rlt_dec E_clip 0 then Raise TypeError else Ok (V_clip E_clip).

(** Python's float division [x / y]: [ZeroDivisionError] on a zero divisor.
    (The dividend is the [int] [I_max]; its conversion to a float, which
    raises [OverflowError] from the bit depth 1024 on, is not modelled.) *)
Definition py_div (x y : R) : result R :=
  if Req_dec_T y 0 then Raise ZeroDivisionError else Ok (x / y).

(** The element chosen by [np.select] in [oetf_RIMMRGB], before the product
    by [q]. *)
Definition select_RIMM (X : npfloat) (I_max E_clip : R) : npfloat :=
  np_select
    [ (flt_lt X (Num 0.0), Num 0);
      (flt_lt X (Num 0.018), fmul (Num 4.5) X);
      (flt_ge X (Num 0.018),
        fsub (fmul (Num 1.099) (fpow X 0.45)) (Num 0.099));
      (flt_gt X (Num E_clip), Num I_max) ].

Definition oetf_RIMMRGB (X : npfloat) (bit_depth : Z) (out_int : bool)
    (E_clip : R) : result npfloat :=
  let I_max := I_max bit_depth in
  let! V_clip := V_clip_of E_clip in
  let! q := py_div I_max V_clip in
  let X_p_RIMM := select_RIMM X I_max E_clip in
  let X_p_RIMM := fmul X_p_RIMM (Num q) in
  if out_int then Ok (as_numeric (np_round X_p_RIMM))
  else Ok (as_numeric (fdiv X_p_RIMM (Num I_max))).

Definition eotf_RIMMRGB (X_p : npfloat) (bit_depth : Z) (in_int : bool)
    (E_clip : R) : result npfloat :=
  let I_max := I_max bit_depth in
  let X_p := if negb in_int then fmul X_p (Num I_max) else X_p in
  let! V_clip := V_clip_of E_clip in
  let m := fdiv (fmul (Num V_clip) X_p) (Num I_max) in
  let! knee := oetf_RIMMRGB (Num 0.018) bit_depth false E_clip in
  let X_RIMM :=
    np_where (flt_lt (fdiv X_p (Num I_max)) knee)
      (fdiv m (Num 4.5))
      (fpow (fdiv (fadd m (Num 0.099)) (Num 1.099)) (1 / 0.45)) in
  Ok (as_numeric X_RIMM).

(** [E_t = np.exp(1) * E_min] and the logarithms are numpy scalars. *)
Definition E_t_ERIMM (E_min : R) : npfloat := fmul (fexp (Num 1)) (Num E_min).

Definition log_range (E_min E_clip : R) : npfloat :=
  fsub (flog (Num E_clip)) (flog (Num E_min)).

(** The element chosen by [np.select] in [log_encoding_ERIMMRGB]. *)
Definition select_ERIMM (X : npfloat) (I_max E_min E_clip : R) : npfloat :=
  let E_t := E_t_ERIMM E_min in
  np_select
    [ (flt_lt X (Num 0.0), Num 0);
      (flt_le X E_t,
        fmul
          (fmul (Num I_max)
             (fdiv (fsub (flog E_t) (flog (Num E_min)))
                (log_range E_min E_clip)))
          (fdiv X E_t));
      (flt_gt X E_t,
        fmul (Num I_max)
          (fdiv (fsub (flog X) (flog (Num E_min)))
             (log_range E_min E_clip)));
      (flt_gt X (Num E_clip), Num I_max) ].

Definition log_encoding_ERIMMRGB (X : npfloat) (bit_depth : Z)
    (out_int : bool) (E_min E_clip : R) : npfloat :=
  let I_max := I_max bit_depth in
  let X_p := select_ERIMM X I_max E_min E_clip in
  if out_int then as_numeric (np_round X_p)
  else as_numeric (fdiv X_p (Num I_max)).

Definition log_decoding_ERIMMRGB (X_p : npfloat) (bit_depth : Z)
    (in_int : bool) (E_min E_clip : R) : npfloat :=
  let I_max := I_max bit_depth in
  let X_p := if negb in_int then fmul X_p (Num I_max) else X_p in
  let E_t := E_t_ERIMM E_min in
  let X :=
    np_where
      (flt_le X_p
         (fmul (Num I_max)
            (fdiv (fsub (flog E_t) (flog (Num E_min)))
               (log_range E_min E_clip))))
      (fmul
         (fdiv (log_range E_min E_clip)
            (fsub (flog E_t) (flog (Num E_min))))
         (fdiv (fmul X_p E_t) (Num I_max)))
      (fexp
         (fadd (fmul (fdiv X_p (Num I_max)) (log_range E_min E_clip))
            (flog (Num E_min)))) in
  as_numeric X.

(** The keyword arguments default to [bit_depth = 8], [E_clip = 2.0] (RIMM),
    [E_min = 0.001] and [E_clip = 316.2] (ERIMM), and to the float output. *)

End RimmRomm.

(** ** Spectral sensitivities of DSLR cameras *)

Module SpectralSensitivities.

Local Open Scope string_scope.

(** [lower] is Python's [str.lower] on ASCII strings: the letters [A] to [Z]
    go to [a] to [z].  Python also lowers letters outside ASCII (the Kelvin
    sign to [k], for one), which the bytes of a [string] do not show; the
    statements about names that are not found are about the strings that
    satisfy [isascii] (Python's [str.isascii]). *)
Definition lower_ascii (c : ascii) : ascii :=
  let n := N_of_ascii c in
  if ((65 <=? n) && (n <=? 90))%N then ascii_of_N (n + 32) else c.

Fixpoint lower (s : string) : string :=
  match s with
  | EmptyString => EmptyString
  | String c rest => String (lower_ascii c) (lower rest)
  end.

Fixpoint isascii (s : string) : bool :=
  match s with
  | EmptyString => true
  | String c rest => (N_of_ascii c <? 128)%N && isascii rest
  end.

(** Modelled from the spec: [CaseInsensitiveMapping] of [colour.utilities] is
    not in the sources.  The spec describes "lookup by camera name
    (case-insensitive) returning the three-channel sensitivity record, or
    fail with a [NotFoundError] if the name is unrecognized", through "a
    standard key-normalizing lookup table (normalize key to a canonical case
    before insertion and lookup)". *)
Record CaseInsensitiveMapping (V : Type) : Type :=
  { _data : gmap string V }.
Arguments _data {V} _.

Inductive lookup_error : Type := NotFoundError.

Definition setitem {V} (m : CaseInsensitiveMapping V) (item : string)
    (value : V) : CaseInsensitiveMapping V :=
  {| _data := <[ lower item := value ]> (_data m) |}.

Definition getitem {V} (m : CaseInsensitiveMapping V) (item : string)
  : V + lookup_error :=
  match _data m !! lower item with
  | Some value => inl value
  | None => inr NotFoundError
  end.

(** The constructor inserts the items of a dictionary one after the other. *)
Definition new_mapping {V} (items : list (string * V))
  : CaseInsensitiveMapping V :=
  fold_left (fun m kv => setitem m (fst kv) (snd kv)) items
    {| _data := ∅ |}.

(** The three channels of a camera: for each, the wavelengths (in nm) and
    the sensitivities, in the order of the source. *)
Record channels : Type :=
  { red : list (Q * Q); green : list (Q * Q); blue : list (Q * Q) }.

(** Modelled from the spec: [RGB_SpectralSensitivities] of
    [colour.characterisation] is not in the sources.  The spec has a record
    "identified by camera name" that "holds three named channels". *)
Record RGB_SpectralSensitivities : Type :=
  { name : string; data : channels }.

Local Open Scope Q_scope.

Definition Nikon_5100_NPL_red : list (Q * Q) :=
  [
    (380.0, 0.00156384299336578000); (385.0, 0.00189691771384825000);
    (390.0, 0.00000000000000000000); (395.0, 0.00000000000000000000);
    (400.0, 0.00000000000000000000); (405.0, 0.00071776703300973298);
    (410.0, 0.00292397466563330000); (415.0, 0.01293626801713740000);
    (420.0, 0.04959786481566520000); (425.0, 0.07607250435970400200);
    (430.0, 0.07658892708274399300); (435.0, 0.06833381956036009600);
    (440.0, 0.06131816189646559900); (445.0, 0.05473314457789760200);
    (450.0, 0.04886204743702320100); (455.0, 0.04284591974257399800);
    (460.0, 0.04022845332691499900); (465.0, 0.04340795992263239700);
    (470.0, 0.04762021431177430200); (475.0, 0.05077188480559390000);
    (480.0, 0.05280329597225499900); (485.0, 0.05257122025495090300);
    (490.0, 0.04789463902845950100); (495.0, 0.04823994170483859900);
    (500.0, 0.05022924089718029700); (505.0, 0.05507649735001429700);
    (510.0, 0.06370211901178619900); (515.0, 0.08038951305895999900);
    (520.0, 0.10038750399831201000); (525.0, 0.11861314902313400000);
    (530.0, 0.12360875120338000000); (535.0, 0.10306249932787701000);
    (540.0, 0.07634108360672720000); (545.0, 0.05278086364640900000);
    (550.0, 0.04118873831058649700); (555.0, 0.03904385351931050100);
    (560.0, 0.04254429440089119900); (565.0, 0.06021313241068020100);
    (570.0, 0.11179621705066800000); (575.0, 0.26967059703276203000);
    (580.0, 0.56450337990639099000); (585.0, 0.85360126947261405000);
    (590.0, 0.98103242181506201000); (595.0, 1.00000000000000000000);
    (600.0, 0.96307105371259005000); (605.0, 0.90552061898043101000);
    (610.0, 0.83427841652645296000); (615.0, 0.76798733762510296000);
    (620.0, 0.70366798041157996000); (625.0, 0.63916484476123703000);
    (630.0, 0.57081292173776299000); (635.0, 0.49581796193158800000);
    (640.0, 0.43833913452368101000); (645.0, 0.38896992260406899000);
    (650.0, 0.34295621205484700000); (655.0, 0.29278541836293998000);
    (660.0, 0.23770718073119301000); (665.0, 0.16491386803178501000);
    (670.0, 0.09128771706377150600); (675.0, 0.04205615047283590300);
    (680.0, 0.02058267877678380100); (685.0, 0.01028680596369610000);
    (690.0, 0.00540759846247261970); (695.0, 0.00272409261591003000);
    (700.0, 0.00127834798711079000); (705.0, 0.00078123118374132301);
    (710.0, 0.00047981421940270001); (715.0, 0.00049133356428571098);
    (720.0, 0.00017414897796340199); (725.0, 0.00012017462571764001);
    (730.0, 0.00000000000000000000); (735.0, 6.1199999999999997e-05);
    (740.0, 0.00000000000000000000); (745.0, 0.00000000000000000000);
    (750.0, 0.00031099754946016501); (755.0, 0.00000000000000000000);
    (760.0, 0.00000000000000000000); (765.0, 0.00000000000000000000);
    (770.0, 8.5599999999999994e-05); (775.0, 0.00013831372865247499);
    (780.0, 3.6199999999999999e-05) ].

Definition Nikon_5100_NPL_green : list (Q * Q) :=
  [
    (380.0, 0.00011500000000000000); (385.0, 0.00152114360178015000);
    (390.0, 0.00057430499183558695); (395.0, 0.00000000000000000000);
    (400.0, 0.00000000000000000000); (405.0, 0.00119722386224553000);
    (410.0, 0.00133571498448177000); (415.0, 0.01319431696052810100);
    (420.0, 0.06497102451249539600); (425.0, 0.11510308718828900000);
    (430.0, 0.13706582547087201000); (435.0, 0.15242852584030600000);
    (440.0, 0.16864005450745301000); (445.0, 0.18329934605049600000);
    (450.0, 0.19603263456229600000); (455.0, 0.21733653278361301000);
    (460.0, 0.25424357380995000000); (465.0, 0.30864811930649899000);
    (470.0, 0.37346871184252001000); (475.0, 0.42915806139893697000);
    (480.0, 0.45965432432137399000); (485.0, 0.47106435446394301000);
    (490.0, 0.48885616444524799000); (495.0, 0.53715178104087602000);
    (500.0, 0.61649118695883898000); (505.0, 0.70700638759968903000);
    (510.0, 0.80096424601366301000); (515.0, 0.88137256686267296000);
    (520.0, 0.93887792119838498000); (525.0, 0.98446559576523596000);
    (530.0, 1.00000000000000000000); (535.0, 0.99084026557129701000);
    (540.0, 0.96154626462922099000); (545.0, 0.92814388346877297000);
    (550.0, 0.88910231592076505000); (555.0, 0.83494222924161199000);
    (560.0, 0.77631807500187500000); (565.0, 0.70731424532056497000);
    (570.0, 0.63579620249170998000); (575.0, 0.56551528450380395000);
    (580.0, 0.49275517253522499000); (585.0, 0.42475654159075799000);
    (590.0, 0.35178931226078303000); (595.0, 0.27817849879541801000);
    (600.0, 0.21167353249961901000); (605.0, 0.15671644549433000000);
    (610.0, 0.11803962073050200000); (615.0, 0.08885249534231440300);
    (620.0, 0.07010184404853669900); (625.0, 0.05690899470893220200);
    (630.0, 0.04729879101895839700); (635.0, 0.04119589002556579800);
    (640.0, 0.03525207084991220000); (645.0, 0.03069313144532450100);
    (650.0, 0.02680396295683950100); (655.0, 0.02352430119871520100);
    (660.0, 0.02034633252474659900); (665.0, 0.01545848325340879900);
    (670.0, 0.00944075104617158980); (675.0, 0.00508102204063505970);
    (680.0, 0.00291019166901752010); (685.0, 0.00162657557793382010);
    (690.0, 0.00092251569139627796); (695.0, 0.00049743349969026901);
    (700.0, 0.00041215940263165701); (705.0, 0.00031692634104666300);
    (710.0, 0.00025621496960251102); (715.0, 0.00000000000000000000);
    (720.0, 0.00024353518865341200); (725.0, 6.0200000000000000e-05);
    (730.0, 0.00000000000000000000); (735.0, 0.00000000000000000000);
    (740.0, 0.00000000000000000000); (745.0, 1.7099999999999999e-05);
    (750.0, 5.2099999999999999e-05); (755.0, 8.8499999999999996e-05);
    (760.0, 0.00000000000000000000); (765.0, 0.00000000000000000000);
    (770.0, 0.00013799999999999999); (775.0, 0.0001786501727059410);
    (780.0, 4.2500000000000003e-05) ].

Definition Nikon_5100_NPL_blue : list (Q * Q) :=
  [
    (380.0, 0.00180956039402335990); (385.0, 0.00048982814544150399);
    (390.0, 0.00087943069176996504); (395.0, 0.00000000000000000000);
    (400.0, 0.00153246068848051000); (405.0, 0.00569805602282062030);
    (410.0, 0.01660828769874150200); (415.0, 0.07879120559214590500);
    (420.0, 0.36171350364994898000); (425.0, 0.65970462106512295000);
    (430.0, 0.75534360010359503000); (435.0, 0.81045312707380701000);
    (440.0, 0.87494523362472998000); (445.0, 0.92671273991178704000);
    (450.0, 0.96314088025989897000); (455.0, 0.98065048133510302000);
    (460.0, 1.00000000000000000000); (465.0, 0.99640467488711104000);
    (470.0, 0.98896988650084305000); (475.0, 0.95660139953157997000);
    (480.0, 0.90495886986980800000); (485.0, 0.83940927710351598000);
    (490.0, 0.75146259578963404000); (495.0, 0.66010202032260801000);
    (500.0, 0.56706879193613802000); (505.0, 0.47935094782603899000);
    (510.0, 0.39406273870351299000); (515.0, 0.31427061879449603000);
    (520.0, 0.24981663439426000000); (525.0, 0.20182351924718100000);
    (530.0, 0.16163395085177601000); (535.0, 0.13516143147333401000);
    (540.0, 0.10998875716043301000); (545.0, 0.08639435407789379500);
    (550.0, 0.06525313059219839400); (555.0, 0.04785595345227559900);
    (560.0, 0.03413932303860940000); (565.0, 0.02401990976851929900);
    (570.0, 0.01976793598476750100); (575.0, 0.01634844781073010000);
    (580.0, 0.01381733937020259900); (585.0, 0.01195294647966710000);
    (590.0, 0.01000909395820090100); (595.0, 0.00758776308929657970);
    (600.0, 0.00645584463521649970); (605.0, 0.00522978285684488030);
    (610.0, 0.00365998459503786990); (615.0, 0.00395538505488667040);
    (620.0, 0.00396835221654468030); (625.0, 0.00349138004486036990);
    (630.0, 0.00404302103181797010); (635.0, 0.00418929985295813000);
    (640.0, 0.00554676856500057980); (645.0, 0.00546423323547744030);
    (650.0, 0.00597382847392098970); (655.0, 0.00630906774763779000);
    (660.0, 0.00610412697742267980); (665.0, 0.00483655792375416000);
    (670.0, 0.00302664794586984980); (675.0, 0.00172169700987674990);
    (680.0, 0.00078065128657817595); (685.0, 0.00056963070848184102);
    (690.0, 0.00027523296133938200); (695.0, 0.00029672137857068598);
    (700.0, 0.00024951192304202899); (705.0, 8.5000000000000006e-05);
    (710.0, 0.00041916895092770603); (715.0, 0.00015331743444139899);
    (720.0, 1.8300000000000001e-05); (725.0, 0.00000000000000000000);
    (730.0, 0.00033869381945204901); (735.0, 0.00000000000000000000);
    (740.0, 0.00000000000000000000); (745.0, 0.00016527828734010200);
    (750.0, 0.00017755262214537101); (755.0, 0.00000000000000000000);
    (760.0, 2.4300000000000001e-05); (765.0, 6.1799999999999998e-05);
    (770.0, 0.00026260703183506501); (775.0, 0.00028050537004191899);
    (780.0, 0.00000000000000000000) ].

Definition Sigma_SDMerill_NPL_red : list (Q * Q) :=
  [
    (400.0, 0.00562107440608700020); (410.0, 0.00650335624511722000);
    (420.0, 0.07407911289140040000); (430.0, 0.04302295946292879900);
    (440.0, 0.03450952562247010200); (450.0, 0.01889156723434350100);
    (460.0, 0.00731107699680200000); (470.0, 0.04549915123096019700);
    (480.0, 0.05676752921111680200); (490.0, 0.13419592065917799000);
    (500.0, 0.16475268997837600000); (510.0, 0.21712641978639199000);
    (520.0, 0.30648343835824399000); (530.0, 0.34984579614888500000);
    (540.0, 0.44374258133259298000); (550.0, 0.44488860528126301000);
    (560.0, 0.47897575674702603000); (570.0, 0.50950291481073895000);
    (580.0, 0.59262909378530504000); (590.0, 0.67383327560697603000);
    (600.0, 0.71403771488106504000); (610.0, 0.86000761311495100000);
    (620.0, 0.89810302849565204000); (630.0, 1.00000000000000000000);
    (640.0, 0.99494213311245205000); (650.0, 0.92085127736137995000);
    (660.0, 0.18143311631425299000); (670.0, 0.00630978795372749960);
    (680.0, 0.00528874383171553000) ].

Definition Sigma_SDMerill_NPL_green : list (Q * Q) :=
  [
    (400.0, 0.00632809751263116970); (410.0, 0.00976180459591275040);
    (420.0, 0.02527177008261050100); (430.0, 0.08375118585311219800);
    (440.0, 0.14370381974360999000); (450.0, 0.18361168930882199000);
    (460.0, 0.40909478009952999000); (470.0, 0.51595564086176404000);
    (480.0, 0.60120664662705503000); (490.0, 0.67031679980136305000);
    (500.0, 0.75258747153475802000); (510.0, 0.84381384368944201000);
    (520.0, 0.90151724558812696000); (530.0, 0.91975030668767699000);
    (540.0, 0.96799429052157804000); (550.0, 0.95725231064041105000);
    (560.0, 0.95204791860047400000); (570.0, 0.97628014458399803000);
    (580.0, 0.97258624388955806000); (590.0, 1.00000000000000000000);
    (600.0, 0.96948452757777404000); (610.0, 0.95441319124850699000);
    (620.0, 0.93335435890921303000); (630.0, 0.92571406833636205000);
    (640.0, 0.88486439541503403000); (650.0, 0.76165184741615699000);
    (660.0, 0.14052437057150499000); (670.0, 0.00414367215817645990);
    (680.0, 0.00183198958165669010) ].

Definition Sigma_SDMerill_NPL_blue : list (Q * Q) :=
  [
    (400.0, 0.16215942413307899000); (410.0, 0.28549837804628603000);
    (420.0, 0.39690431060902098000); (430.0, 0.50831024317175599000);
    (440.0, 0.62211847246948804000); (450.0, 0.73742136245769496000);
    (460.0, 0.94538036670138004000); (470.0, 0.96441494770280400000);
    (480.0, 1.00000000000000000000); (490.0, 0.98598021188452500000);
    (500.0, 0.98340266357529005000); (510.0, 0.96969219567072595000);
    (520.0, 0.94280817402079797000); (530.0, 0.89664279918070899000);
    (540.0, 0.88444590220041897000); (550.0, 0.86791899071597101000);
    (560.0, 0.83375679584908402000); (570.0, 0.83204140240572999000);
    (580.0, 0.80054956384778198000); (590.0, 0.78289512474646505000);
    (600.0, 0.73946953007191796000); (610.0, 0.66718640174985699000);
    (620.0, 0.62043627806816704000); (630.0, 0.61116087876956704000);
    (640.0, 0.55173556195710605000); (650.0, 0.46538831744516401000);
    (660.0, 0.07961907836720690000); (670.0, 0.00059244446107236802);
    (680.0, 0.00468563680483140980) ].
Local Close Scope Q_scope.

#[local] Instance channels_inhabited : Inhabited channels :=
  populate {| red := []; green := []; blue := [] |}.

Definition DSL_CAMERAS_RGB_SPECTRAL_SENSITIVITIES_DATA
  : gmap string channels :=
  list_to_map
    [ ("Nikon 5100 (NPL)",
        {| red := Nikon_5100_NPL_red;
           green := Nikon_5100_NPL_green;
           blue := Nikon_5100_NPL_blue |});
      ("Sigma SDMerill (NPL)",
        {| red := Sigma_SDMerill_NPL_red;
           green := Sigma_SDMerill_NPL_green;
           blue := Sigma_SDMerill_NPL_blue |}) ].

Definition DSL_CAMERAS_RGB_SPECTRAL_SENSITIVITIES
  : CaseInsensitiveMapping RGB_SpectralSensitivities :=
  new_mapping
    [ ("Nikon 5100 (NPL)",
        {| name := "Nikon 5100 (NPL)";
           data :=
             DSL_CAMERAS_RGB_SPECTRAL_SENSITIVITIES_DATA
               !!! "Nikon 5100 (NPL)" |});
      ("Sigma SDMerill (NPL)",
        {| name := "Sigma SDMerill (NPL)";
           data :=
             DSL_CAMERAS_RGB_SPECTRAL_SENSITIVITIES_DATA
               !!! "Sigma SDMerill (NPL)" |}) ].

(** The two records of the store, for the statements below. *)
Definition Nikon_5100_NPL : RGB_SpectralSensitivities :=
  {| name := "Nikon 5100 (NPL)";
     data :=
       DSL_CAMERAS_RGB_SPECTRAL_SENSITIVITIES_DATA !!! "Nikon 5100 (NPL)" |}.

Definition Sigma_SDMerill_NPL : RGB_SpectralSensitivities :=
  {| name := "Sigma SDMerill (NPL)";
     data :=
       DSL_CAMERAS_RGB_SPECTRAL_SENSITIVITIES_DATA
         !!! "Sigma SDMerill (NPL)" |}.

End SpectralSensitivities.

(** ** Notions used by the statements *)


(** Encoding to a float and decoding it back, with the same parameters. *)
Definition roundtrip_ROMM (X : npfloat) (bit_depth : Z) : npfloat :=
  RimmRomm.eotf_ROMMRGB (RimmRomm.oetf_ROMMRGB X bit_depth false)
    bit_depth false.

Definition roundtrip_RIMM (X : npfloat) (bit_depth : Z) (E_clip : R)
  : result npfloat :=
  let! X_p := RimmRomm.oetf_RIMMRGB X bit_depth false E_clip in
  RimmRomm.eotf_RIMMRGB X_p bit_depth false E_clip.

Definition roundtrip_ERIMM (X : npfloat) (bit_depth : Z) (E_min E_clip : R)
  : npfloat :=
  RimmRomm.log_decoding_ERIMMRGB
    (RimmRomm.log_encoding_ERIMMRGB X bit_depth false E_min E_clip)
    bit_depth false E_min E_clip.

(** [a] is a number, and within [tol] of [x]. *)
Definition within (tol : R) (a : npfloat) (x : R) : Prop :=
  match a with
  | Num y => Rabs (y - x) <= tol
  | _ => False
  end.



(** ** Notions used by the further properties *)

(** The curves of the three encodings on the reals: what the encoders
    compute on a finite input, before the scaling to code values. *)
Definition ROMM_curve (x : R) : R :=
  if Rlt_dec x RimmRomm.E_t_ROMM then 16 * x else Rpower x (1 / 1.8).

Definition RIMM_curve (x : R) : R :=
  if Rlt_dec x 0 then 0
  else if Rlt_dec x 0.018 then 4.5 * x
  else 1.099 * Rpower x 0.45 - 0.099.

Definition ERIMM_curve (E_min E_clip x : R) : R :=
  if Rlt_dec x 0 then 0
  else if Rle_dec x (exp 1 * E_min)
  then x / (exp 1 * E_min) / (ln E_clip - ln E_min)
  else (ln x - ln E_min) / (ln E_clip - ln E_min).

(** Decoding a float code value and encoding it back, with the same
    parameters. *)
Definition recode_ROMM (X_p : npfloat) (bit_depth : Z) : npfloat :=
  RimmRomm.oetf_ROMMRGB (RimmRomm.eotf_ROMMRGB X_p bit_depth false)
    bit_depth false.

Definition recode_RIMM (X_p : npfloat) (bit_depth : Z) (E_clip : R)
  : result npfloat :=
  let! X := RimmRomm.eotf_RIMMRGB X_p bit_depth false E_clip in
  RimmRomm.oetf_RIMMRGB X bit_depth false E_clip.

Definition recode_ERIMM (X_p : npfloat) (bit_depth : Z) (E_min E_clip : R)
  : npfloat :=
  RimmRomm.log_encoding_ERIMMRGB
    (RimmRomm.log_decoding_ERIMMRGB X_p bit_depth false E_min E_clip)
    bit_depth false E_min E_clip.

(** The wavelengths of a table are [start], [start + step], ... *)
Fixpoint regular_grid (start step : Q) (table : list (Q * Q)) : bool :=
  match table with
  | [] => true
  | (w, _) :: rest =>
      Qeq_bool w start && regular_grid (start + step)%Q step rest
  end.

(** Every sensitivity of a table is in [[0, 1]], and [1] is reached. *)
Definition peak_normalised (table : list (Q * Q)) : bool :=
  forallb (fun wv => Qle_bool 0 (snd wv) && Qle_bool (snd wv) 1) table
  && existsb (fun wv => Qeq_bool (snd wv) 1) table.

(** The three tables of a record are on the grid of [n] wavelengths that
    starts at [start] with the given [step], and are peak-normalised. *)
Definition well_sampled (start step : Q) (n : nat)
    (r : SpectralSensitivities.RGB_SpectralSensitivities) : bool :=
  forallb
    (fun table =>
       Nat.eqb (List.length table) n && regular_grid start step table
       && peak_normalised table)
    [ SpectralSensitivities.red (SpectralSensitivities.data r);
      SpectralSensitivities.green (SpectralSensitivities.data r);
      SpectralSensitivities.blue (SpectralSensitivities.data r) ].

(** * Properties *)

Import RimmRomm.

(** ** The constants of the ROMM curve *)

Lemma Rpower_16 (y : R) : Rpower 16 y = Rpower 2 (4 * y).
Proof.
  replace 16 with (Rpower 2 4).
  - now rewrite Rpower_mult.
  - replace 4 with (INR 4) by (simpl; lra).
    rewrite Rpower_pow by lra. simpl. lra.
Qed.

Lemma Rpower_2_neg (n : nat) : Rpower 2 (- INR n) = / 2 ^ n.
Proof. rewrite Rpower_Ropp, Rpower_pow by lra. reflexivity. Qed.

Lemma E_t_ROMM_value : E_t_ROMM = / 512.
Proof.
  unfold E_t_ROMM. rewrite Rpower_16.
  replace (4 * (1.8 / (1 - 1.8))) with (- INR 9) by (simpl; lra).
  rewrite Rpower_2_neg. simpl. lra.
Qed.

Lemma E_t_ROMM_root : Rpower E_t_ROMM (1 / 1.8) = / 32.
Proof.
  unfold E_t_ROMM. rewrite Rpower_mult, Rpower_16.
  replace (4 * (1.8 / (1 - 1.8) * (1 / 1.8))) with (- INR 5) by (simpl; lra).
  rewrite Rpower_2_neg. simpl. lra.
Qed.

Lemma I_max_pos (b : Z) : (0 < b)%Z -> 0 < I_max b.
Proof.
  intros Hb. unfold I_max. destruct b as [|p|p]; try lia.
  cbn [powerRZ].
  destruct (Pos2Nat.is_succ p) as [n ->]. cbn [pow].
  assert (H : 1 <= 2 ^ n) by (apply pow_R1_Rle; lra).
  lra.
Qed.


Lemma I_max_8 : I_max 8 = 255.
Proof. unfold I_max. simpl. lra. Qed.

(** ** Evaluation lemmas for the floating-point operations *)

Lemma Rltb_true (x y : R) : x < y -> Rltb x y = true.
Proof. intros H. unfold Rltb. destruct (Rlt_dec x y); [reflexivity | lra]. Qed.

Lemma Rltb_false (x y : R) : y <= x -> Rltb x y = false.
Proof. intros H. unfold Rltb. destruct (Rlt_dec x y); [lra | reflexivity]. Qed.

Lemma Rleb_true (x y : R) : x <= y -> Rleb x y = true.
Proof. intros H. unfold Rleb. destruct (Rle_dec x y); [reflexivity | lra]. Qed.

Lemma Rleb_false (x y : R) : y < x -> Rleb x y = false.
Proof. intros H. unfold Rleb. destruct (Rle_dec x y); [lra | reflexivity]. Qed.

Lemma Rsign_pos (r : R) : 0 < r -> Rsign r = Pos.
Proof.
  intros H. unfold Rsign.
  destruct (Rlt_dec r 0); [lra |]. destruct (Rlt_dec 0 r); [reflexivity | lra].
Qed.

Lemma Rsign_neg (r : R) : r < 0 -> Rsign r = Neg.
Proof. intros H. unfold Rsign. destruct (Rlt_dec r 0); [reflexivity | lra]. Qed.

Lemma Rsign_zero : Rsign 0 = Zero.
Proof.
  unfold Rsign.
  destruct (Rlt_dec 0 0); [lra |]. destruct (Rlt_dec 0 0); [lra | reflexivity].
Qed.

Lemma fdiv_Num (x y : R) : y <> 0 -> fdiv (Num x) (Num y) = Num (x / y).
Proof. intros H. cbn [fdiv]. destruct (Req_dec_T y 0); [contradiction | reflexivity]. Qed.

Lemma fdiv_0_0 : fdiv (Num 0) (Num 0) = NaN.
Proof.
  cbn [fdiv]. destruct (Req_dec_T 0 0) as [_ | H]; [| now destruct H].
  now rewrite Rsign_zero.
Qed.

Lemma fpow_pos (r y : R) : 0 < r -> fpow (Num r) y = Num (Rpower r y).
Proof. intros H. cbn [fpow]. destruct (Rlt_dec 0 r); [reflexivity | lra]. Qed.


Lemma fpow_neg (r y : R) : r < 0 -> fpow (Num r) y = NaN.
Proof.
  intros H. cbn [fpow]. destruct (Rlt_dec 0 r); [lra |].
  destruct (Req_dec_T r 0); [lra | reflexivity].
Qed.

Lemma flog_pos (r : R) : 0 < r -> flog (Num r) = Num (ln r).
Proof. intros H. cbn [flog]. destruct (Rlt_dec 0 r); [reflexivity | lra]. Qed.

Lemma round_half_even_IZR (z : Z) : round_half_even (IZR z) = z.
Proof.
  unfold round_half_even.
  replace (Int_part (IZR z)) with z.
  - destruct (Rlt_dec (IZR z - IZR z) (1 / 2)); [reflexivity | lra].
  - unfold Int_part. rewrite <- (up_tech (IZR z) z); [lia | lra |].
    rewrite plus_IZR. lra.
Qed.

Lemma np_round_0 : np_round (Num 0) = Num 0.
Proof. cbn [np_round]. now rewrite (round_half_even_IZR 0). Qed.

(** Dividing by a finite non-zero number and multiplying back is the
    identity, on the special values too. *)
Lemma fdiv_fmul_cancel (a : npfloat) (i : R) :
  i <> 0 -> fmul (fdiv a (Num i)) (Num i) = a.
Proof.
  intros Hi. destruct a as [| | |x].
  - reflexivity.
  - cbn [fdiv]. destruct (Rlt_dec i 0) as [Hn | Hn]; cbn [fmul fneg].
    + now rewrite Rsign_neg.
    + rewrite Rsign_pos by lra. reflexivity.
  - cbn [fdiv]. destruct (Rlt_dec i 0) as [Hn | Hn]; cbn [fmul fneg].
    + now rewrite Rsign_neg.
    + rewrite Rsign_pos by lra. reflexivity.
  - rewrite fdiv_Num by assumption. cbn [fmul]. f_equal. now field.
Qed.

Lemma fmul_fdiv_cancel (x i : R) :
  i <> 0 -> fdiv (fmul (Num x) (Num i)) (Num i) = Num x.
Proof. intros Hi. cbn [fmul]. rewrite fdiv_Num by assumption. f_equal. now field. Qed.

Lemma I_max_nonzero (b : Z) : b <> 0%Z -> I_max b <> 0.
Proof.
  intros Hb. destruct (Z_lt_le_dec 0 b) as [Hp | Hn].
  - apply I_max_pos in Hp. lra.
  - unfold I_max. destruct b as [|p|p]; try lia.
    cbn [powerRZ].
    destruct (Pos2Nat.is_succ p) as [n ->]. cbn [pow].
    assert (H : 1 <= 2 ^ n) by (apply pow_R1_Rle; lra).
    assert (H2 : / (2 * 2 ^ n) <= / 2).
    { apply Rinv_le_contravar; lra. }
    lra.
Qed.

(** C9. [oetf_ProPhotoRGB] and [eotf_ProPhotoRGB] are the ROMM functions under
    another name: they return the same result on every input, at every
    bit depth and for both values of the integer flag. *)
Theorem ProPhotoRGB_is_ROMMRGB :
  (forall X bit_depth out_int,
      oetf_ProPhotoRGB X bit_depth out_int = oetf_ROMMRGB X bit_depth out_int)
  /\ (forall X_p bit_depth in_int,
      eotf_ProPhotoRGB X_p bit_depth in_int = eotf_ROMMRGB X_p bit_depth in_int).
Proof. split; reflexivity. Qed.



(** ** Continuity of a function defined by two pieces *)

Lemma continuity_pt_ext (f g : R -> R) (a : R) :
  (forall x, f x = g x) -> continuity_pt g a -> continuity_pt f a.
Proof.
  intros E Hg eps He. destruct (Hg eps He) as [d [Hd H]].
  exists d. split; [exact Hd |]. intros x Hx. rewrite !E. now apply H.
Qed.

Lemma continuity_pt_pieces (g h : R -> R) (a : R) :
  continuity_pt g a -> continuity_pt h a -> g a = h a ->
  continuity_pt (fun x => if Rlt_dec x a then g x else h x) a.
Proof.
  intros Hg Hh E eps He.
  destruct (Hg eps He) as [d1 [Hd1 H1]].
  destruct (Hh eps He) as [d2 [Hd2 H2]].
  exists (Rmin d1 d2). split; [now apply Rmin_pos |].
  intros x [HD Hx].
  assert (Hx1 : dist R_met x a < d1) by (eapply Rlt_le_trans; [exact Hx | apply Rmin_l]).
  assert (Hx2 : dist R_met x a < d2) by (eapply Rlt_le_trans; [exact Hx | apply Rmin_r]).
  destruct (Rlt_dec a a) as [Ha | _]; [lra |].
  destruct (Rlt_dec x a).
  - rewrite <- E. apply H1. now split.
  - apply H2. now split.
Qed.

Lemma continuity_pt_Rpower (y a : R) :
  0 < a -> continuity_pt (fun x => Rpower x y) a.
Proof.
  intros Ha. apply derivable_continuous_pt.
  exists (y * Rpower a (y - 1)). now apply derivable_pt_lim_power.
Qed.

Lemma continuity_pt_scale (c a : R) : continuity_pt (fun x => c * x) a.
Proof.
  apply derivable_continuous_pt. reg.
Qed.

Lemma E_t_ROMM_pos : 0 < E_t_ROMM.
Proof. rewrite E_t_ROMM_value. lra. Qed.

(** The float output of [oetf_ROMMRGB] on a finite input. *)
Lemma oetf_ROMMRGB_Num (x : R) (b : Z) :
  b <> 0%Z ->
  oetf_ROMMRGB (Num x) b false
  = Num (if Rlt_dec x E_t_ROMM then 16 * x else Rpower x (1 / 1.8)).
Proof.
  intros Hb. apply I_max_nonzero in Hb.
  unfold oetf_ROMMRGB, as_numeric, np_where. cbn [flt_lt]. unfold Rltb.
  pose proof E_t_ROMM_pos as Ht.
  destruct (Rlt_dec x E_t_ROMM) as [Hx | Hx].
  - cbn [fmul]. rewrite fdiv_Num by assumption. f_equal. now field.
  - rewrite fpow_pos by lra. now rewrite fmul_fdiv_cancel.
Qed.

(** C10. With [E_t = 16 ** (1.8 / (1 - 1.8))], [16 * E_t = E_t ** (1 / 1.8)]
    over the reals (both are [1 / 32]); hence the two branches of
    [oetf_ROMMRGB] give the same value at [X = E_t] and the encoder is
    continuous there, and the two branches of [eotf_ROMMRGB] give the same
    value at the code value [16 * E_t * I_max]. *)
Theorem ROMM_branches_agree_at_knee :
  16 * E_t_ROMM = Rpower E_t_ROMM (1 / 1.8)
  /\ (forall bit_depth,
        fmul (fmul (Num E_t_ROMM) (Num 16)) (Num (I_max bit_depth))
        = fmul (fpow (Num E_t_ROMM) (1 / 1.8)) (Num (I_max bit_depth)))
  /\ (forall bit_depth,
        bit_depth <> 0%Z ->
        exists f,
          (forall x, oetf_ROMMRGB (Num x) bit_depth false = Num (f x))
          /\ continuity_pt f E_t_ROMM)
  /\ (forall bit_depth,
        let X_p := Num (16 * E_t_ROMM * I_max bit_depth) in
        fdiv X_p (Num (16 * I_max bit_depth))
        = fpow (fdiv X_p (Num (I_max bit_depth))) 1.8).
Proof.
  assert (Hknee : 16 * E_t_ROMM = Rpower E_t_ROMM (1 / 1.8)).
  { rewrite E_t_ROMM_root, E_t_ROMM_value. lra. }
  pose proof E_t_ROMM_pos as Ht.
  split; [exact Hknee |]. split; [| split].
  - intros b. rewrite fpow_pos by exact Ht. cbn [fmul].
    rewrite <- Hknee. f_equal. ring.
  - intros b Hb.
    exists (fun x => if Rlt_dec x E_t_ROMM then 16 * x else Rpower x (1 / 1.8)).
    split.
    + intros x. now apply oetf_ROMMRGB_Num.
    + apply (continuity_pt_pieces (fun x => 16 * x) (fun x => Rpower x (1 / 1.8))).
      * apply continuity_pt_scale.
      * now apply continuity_pt_Rpower.
      * exact Hknee.
  - intros b X_p. subst X_p.
    destruct (Req_dec_T (I_max b) 0) as [H0 | H0].
    + rewrite H0. replace (16 * E_t_ROMM * 0) with 0 by ring.
      replace (16 * 0) with 0 by ring. now rewrite fdiv_0_0.
    + rewrite !fdiv_Num by lra.
      replace (16 * E_t_ROMM * I_max b / I_max b) with (16 * E_t_ROMM)
        by now field.
      rewrite fpow_pos by lra. f_equal.
      replace (16 * E_t_ROMM * I_max b / (16 * I_max b)) with E_t_ROMM
        by now field.
      rewrite Hknee, Rpower_mult.
      replace (1 / 1.8 * 1.8) with 1 by lra.
      now rewrite Rpower_1.
Qed.

(** ** The RIMM pair *)

Lemma V_clip_of_Ok (E_clip : R) : 0 <= E_clip -> V_clip_of E_clip = Ok (V_clip E_clip).
Proof. intros H. unfold V_clip_of. destruct (Rlt_dec E_clip 0); [lra | reflexivity]. Qed.

Lemma V_clip_of_Raise (E_clip : R) : E_clip < 0 -> V_clip_of E_clip = Raise TypeError.
Proof. intros H. unfold V_clip_of. destruct (Rlt_dec E_clip 0); [reflexivity | lra]. Qed.

Lemma py_div_Ok (x y : R) : y <> 0 -> py_div x y = Ok (x / y).
Proof. intros H. unfold py_div. destruct (Req_dec_T y 0); [contradiction | reflexivity]. Qed.

(** [oetf_RIMMRGB] when its scalar arithmetic goes through. *)
Lemma oetf_RIMMRGB_Ok (X : npfloat) (b : Z) (out_int : bool) (E_clip : R) :
  0 <= E_clip -> V_clip E_clip <> 0 ->
  oetf_RIMMRGB X b out_int E_clip
  = let X_p := fmul (select_RIMM X (I_max b) E_clip)
                 (Num (I_max b / V_clip E_clip)) in
    Ok (if out_int then np_round X_p else fdiv X_p (Num (I_max b))).
Proof.
  intros HE HV. unfold oetf_RIMMRGB.
  rewrite V_clip_of_Ok by assumption. cbn [bind].
  rewrite py_div_Ok by assumption. cbn [bind].
  now destruct out_int.
Qed.

(** The RIMM functions raise exactly when [E_clip] is negative or [V_clip]
    is zero. *)
Lemma oetf_RIMMRGB_raises (X : npfloat) (b : Z) (out_int : bool) (E_clip : R) :
  raises (oetf_RIMMRGB X b out_int E_clip) = false
  <-> 0 <= E_clip /\ V_clip E_clip <> 0.
Proof.
  split.
  - unfold oetf_RIMMRGB, V_clip_of, py_div.
    destruct (Rlt_dec E_clip 0); cbn [bind raises]; [discriminate |].
    destruct (Req_dec_T (V_clip E_clip) 0); cbn [bind raises]; [discriminate |].
    intros _. split; [lra | assumption].
  - intros [HE HV]. rewrite oetf_RIMMRGB_Ok by assumption.
    reflexivity.
Qed.


(** C5. [eotf_RIMMRGB] obtains its knee by calling [oetf_RIMMRGB] on [0.018]
    with the same [bit_depth] and [E_clip] (and the float output): when that
    call raises, so does the decoder; otherwise the decoder returns [m / 4.5]
    exactly when [X_p / I_max] is strictly below the value of the call, and
    [((m + 0.099) / 1.099) ** (1 / 0.45)] otherwise, [X_p] being the input
    scaled to a code value. *)
Theorem eotf_RIMMRGB_knee_from_oetf
    (X_p : npfloat) (bit_depth : Z) (in_int : bool) (E_clip : R) :
  let I := Num (I_max bit_depth) in
  let X_p' := if in_int then X_p else fmul X_p I in
  match oetf_RIMMRGB (Num 0.018) bit_depth false E_clip with
  | Ok knee =>
      let m := fdiv (fmul (Num (V_clip E_clip)) X_p') I in
      eotf_RIMMRGB X_p bit_depth in_int E_clip
      = Ok (if flt_lt (fdiv X_p' I) knee
            then fdiv m (Num 4.5)
            else fpow (fdiv (fadd m (Num 0.099)) (Num 1.099)) (1 / 0.45))
  | Raise e => eotf_RIMMRGB X_p bit_depth in_int E_clip = Raise e
  end.
Proof.
  intros I X_p'.
  destruct (oetf_RIMMRGB (Num 0.018) bit_depth false E_clip) as [knee | e] eqn:Hk.
  - assert (Hr : raises (oetf_RIMMRGB (Num 0.018) bit_depth false E_clip) = false)
      by now rewrite Hk.
    apply oetf_RIMMRGB_raises in Hr. destruct Hr as [HE HV].
    unfold eotf_RIMMRGB. rewrite V_clip_of_Ok by assumption. cbn [bind].
    rewrite Hk. cbn [bind]. unfold as_numeric, np_where.
    subst X_p' I. now destruct in_int.
  - unfold eotf_RIMMRGB.
    unfold oetf_RIMMRGB in Hk |- *.
    destruct (V_clip_of E_clip) as [V |]; cbn [bind] in *.
    + now rewrite Hk.
    + exact Hk.
Qed.

(** ** The default clip level of the RIMM pair *)

Lemma Rpower_gt_1 (x y : R) : 1 < x -> 0 < y -> 1 < Rpower x y.
Proof.
  intros Hx Hy. rewrite <- (Rpower_O x) by lra. now apply Rpower_lt.
Qed.

Lemma py_pow_pos (x y : R) : 0 < x -> py_pow x y = Rpower x y.
Proof. intros H. unfold py_pow. destruct (Req_dec_T x 0); [lra | reflexivity]. Qed.

Lemma V_clip_2 : V_clip 2.0 = 1.099 * Rpower 2 0.45 - 0.099 /\ 1 < V_clip 2.0.
Proof.
  unfold V_clip. rewrite py_pow_pos by lra.
  replace 2.0 with 2 by lra. split; [reflexivity |].
  pose proof (Rpower_gt_1 2 0.45 ltac:(lra) ltac:(lra)). lra.
Qed.

(** ** Branch selection *)

Lemma select_RIMM_neg (X : npfloat) (I E_clip : R) :
  flt_lt X (Num 0) = true -> select_RIMM X I E_clip = Num 0.
Proof.
  intros H. unfold select_RIMM. cbn [np_select].
  replace 0.0 with 0 by lra. now rewrite H.
Qed.

Lemma select_ERIMM_neg (X : npfloat) (I E_min E_clip : R) :
  flt_lt X (Num 0) = true -> select_ERIMM X I E_min E_clip = Num 0.
Proof.
  intros H. unfold select_ERIMM. cbn [np_select].
  replace 0.0 with 0 by lra. now rewrite H.
Qed.

Lemma E_t_ERIMM_Num (E_min : R) : E_t_ERIMM E_min = Num (exp 1 * E_min).
Proof. reflexivity. Qed.

(** C3 (as the code has it). For an input strictly below zero, finite or
    [-inf], and a bit depth other than zero and up to 64: [oetf_RIMMRGB]
    (when it does not raise) and [log_encoding_ERIMMRGB] return [0], with
    either output flag.  [oetf_ROMMRGB] has no zero branch: a negative input
    is below [E_t] and goes through the linear branch [X * 16 * I_max], and
    the float output is strictly below zero, never [0]. *)
Theorem negative_input_encoding
    (X : npfloat) (bit_depth : Z) (out_int : bool) :
  flt_lt X (Num 0) = true ->
  bit_depth <> 0%Z -> (bit_depth <= 64)%Z ->
  (forall E_clip,
      raises (oetf_RIMMRGB X bit_depth out_int E_clip) = false ->
      oetf_RIMMRGB X bit_depth out_int E_clip = Ok (Num 0))
  /\ (forall E_min E_clip,
      log_encoding_ERIMMRGB X bit_depth out_int E_min E_clip = Num 0)
  /\ flt_lt (oetf_ROMMRGB X bit_depth false) (Num 0) = true.
Proof.
  intros Hneg Hb _. pose proof (I_max_nonzero _ Hb) as HI.
  split; [| split].
  - intros E_clip Hr. apply oetf_RIMMRGB_raises in Hr. destruct Hr as [HE HV].
    rewrite oetf_RIMMRGB_Ok by assumption. cbv zeta.
    rewrite select_RIMM_neg by assumption. cbn [fmul].
    rewrite Rmult_0_l. destruct out_int.
    + now rewrite np_round_0.
    + rewrite fdiv_Num by assumption. do 2 f_equal. now field.
  - intros E_min E_clip. unfold log_encoding_ERIMMRGB, as_numeric.
    rewrite select_ERIMM_neg by assumption. destruct out_int.
    + now rewrite np_round_0.
    + rewrite fdiv_Num by assumption. f_equal. now field.
  - destruct X as [| | | x]; try discriminate Hneg.
    + unfold oetf_ROMMRGB, as_numeric, np_where.
      cbn [flt_lt fmul fneg]. rewrite Rsign_pos by lra.
      cbn [inf_of_sign fneg fmul].
      destruct (Rlt_dec (I_max bit_depth) 0) as [Hn | Hn].
      * rewrite Rsign_neg by assumption. cbn [inf_of_sign fneg fdiv].
        destruct (Rlt_dec (I_max bit_depth) 0); [reflexivity | lra].
      * rewrite Rsign_pos by lra. cbn [inf_of_sign fneg fdiv].
        destruct (Rlt_dec (I_max bit_depth) 0); [lra | reflexivity].
    + rewrite oetf_ROMMRGB_Num by assumption.
      cbn [flt_lt] in Hneg. unfold Rltb in Hneg.
      destruct (Rlt_dec x 0) as [Hx | Hx]; [| discriminate].
      pose proof E_t_ROMM_pos.
      destruct (Rlt_dec x E_t_ROMM); [| lra].
      cbn [flt_lt]. apply Rltb_true. lra.
Qed.

(** C3 at the input [-1.0], the bit depth 8 and the default parameters:
    both outputs of [oetf_RIMMRGB] and [log_encoding_ERIMMRGB] would be [0];
    the float output of [oetf_ROMMRGB] is below zero. *)
Lemma negative_input_encoding_witness :
  flt_lt (Num (-1)) (Num 0) = true
  /\ 8%Z <> 0%Z /\ (8 <= 64)%Z
  /\ oetf_RIMMRGB (Num (-1)) 8 false 2.0 = Ok (Num 0)
  /\ log_encoding_ERIMMRGB (Num (-1)) 8 false 0.001 316.2 = Num 0
  /\ flt_lt (oetf_ROMMRGB (Num (-1)) 8 false) (Num 0) = true.
Proof.
  assert (H1 : flt_lt (Num (-1)) (Num 0) = true) by (apply Rltb_true; lra).
  assert (H2 : 8%Z <> 0%Z) by lia.
  assert (H3 : (8 <= 64)%Z) by lia.
  pose proof (negative_input_encoding (Num (-1)) 8 false H1 H2 H3)
    as [Hr [He Ho]].
  split; [exact H1 |]. split; [exact H2 |]. split; [exact H3 |].
  split; [| split; [apply He | exact Ho]].
  apply Hr. apply oetf_RIMMRGB_raises.
  pose proof V_clip_2 as [_ HV]. split; lra.
Defined.

(** C3, counterexample: [oetf_ROMMRGB(-1.0)] is [-16], a negative value and
    not [0]. *)
Lemma oetf_ROMMRGB_negative_not_clamped :
  flt_lt (Num (-1)) (Num 0) = true
  /\ oetf_ROMMRGB (Num (-1)) 8 false = Num (-16)
  /\ -16 < 0.
Proof.
  split; [apply Rltb_true; lra |]. split; [| lra].
  rewrite oetf_ROMMRGB_Num by lia.
  pose proof E_t_ROMM_pos.
  destruct (Rlt_dec (-1) E_t_ROMM); [f_equal; lra | lra].
Qed.

Lemma Rltb_or_Rleb (x y : R) : Rltb x y = true \/ Rleb y x = true.
Proof.
  destruct (Rlt_le_dec x y); [left; now apply Rltb_true | right; now apply Rleb_true].
Qed.

Lemma Rleb_or_Rltb (x y : R) : Rleb x y = true \/ Rltb y x = true.
Proof.
  destruct (Rle_lt_dec x y); [left; now apply Rleb_true | right; now apply Rltb_true].
Qed.

(** The fourth pair of [np.select] in [oetf_RIMMRGB] is never reached: an
    element that fails [X < 0.018] and [X >= 0.018] is [NaN], and fails
    [X > E_clip] as well. *)
Lemma select_RIMM_first_three (X : npfloat) (I E_clip : R) :
  select_RIMM X I E_clip
  = np_select
      [ (flt_lt X (Num 0.0), Num 0);
        (flt_lt X (Num 0.018), fmul (Num 4.5) X);
        (flt_ge X (Num 0.018),
          fsub (fmul (Num 1.099) (fpow X 0.45)) (Num 0.099)) ].
Proof.
  unfold select_RIMM. cbn [np_select].
  destruct X as [| | |x]; cbn [flt_lt flt_ge flt_gt flt_le]; try reflexivity.
  destruct (Rltb x 0.0); [reflexivity |].
  destruct (Rltb_or_Rleb x 0.018) as [-> | ->]; [reflexivity |].
  now destruct (Rltb x 0.018).
Qed.

Lemma select_ERIMM_first_three (X : npfloat) (I E_min E_clip : R) :
  select_ERIMM X I E_min E_clip
  = let E_t := E_t_ERIMM E_min in
    np_select
      [ (flt_lt X (Num 0.0), Num 0);
        (flt_le X E_t,
          fmul
            (fmul (Num I)
               (fdiv (fsub (flog E_t) (flog (Num E_min)))
                  (log_range E_min E_clip)))
            (fdiv X E_t));
        (flt_gt X E_t,
          fmul (Num I)
            (fdiv (fsub (flog X) (flog (Num E_min)))
               (log_range E_min E_clip))) ].
Proof.
  unfold select_ERIMM. cbv zeta. rewrite E_t_ERIMM_Num. cbn [np_select].
  destruct X as [| | |x]; cbn [flt_lt flt_ge flt_gt flt_le]; try reflexivity.
  destruct (Rltb x 0.0); [reflexivity |].
  destruct (Rleb_or_Rltb x (exp 1 * E_min)) as [-> | ->]; [reflexivity |].
  now destruct (Rleb x (exp 1 * E_min)).
Qed.

Lemma exp_1_bounds : 2 < exp 1 <= 3.
Proof. split; [apply exp_ineq1; lra | apply exp_le_3]. Qed.

Lemma select_RIMM_linear (x I E_clip : R) :
  0 <= x < 0.018 -> select_RIMM (Num x) I E_clip = Num (4.5 * x).
Proof.
  intros Hx. rewrite select_RIMM_first_three. cbn [np_select flt_lt].
  rewrite Rltb_false by lra. now rewrite Rltb_true by lra.
Qed.

Lemma select_RIMM_gamma (x I E_clip : R) :
  0.018 <= x ->
  select_RIMM (Num x) I E_clip = Num (1.099 * Rpower x 0.45 - 0.099).
Proof.
  intros Hx. rewrite select_RIMM_first_three. cbn [np_select flt_lt flt_ge flt_le].
  rewrite !Rltb_false by lra. rewrite Rleb_true by lra.
  now rewrite fpow_pos by lra.
Qed.

Lemma log_range_Num (E_min E_clip : R) :
  0 < E_min -> 0 < E_clip ->
  log_range E_min E_clip = Num (ln E_clip - ln E_min).
Proof.
  intros H1 H2. unfold log_range. now rewrite !flog_pos by assumption.
Qed.

Lemma log_range_pos (E_min E_clip : R) :
  0 < E_min < E_clip -> 0 < ln E_clip - ln E_min.
Proof.
  intros [H1 H2]. pose proof (ln_increasing E_min E_clip H1 H2). lra.
Qed.

Lemma select_ERIMM_log (x I E_min E_clip : R) :
  0 < E_min < E_clip -> exp 1 * E_min < x ->
  select_ERIMM (Num x) I E_min E_clip
  = Num (I * ((ln x - ln E_min) / (ln E_clip - ln E_min))).
Proof.
  intros HE Hx. pose proof exp_1_bounds as He.
  pose proof (log_range_pos _ _ HE) as HD.
  assert (0 < x) by nra.
  rewrite select_ERIMM_first_three. cbv zeta. rewrite E_t_ERIMM_Num.
  cbn [np_select flt_lt flt_le flt_gt].
  rewrite Rltb_false by lra. rewrite Rleb_false by lra. rewrite Rltb_true by lra.
  rewrite log_range_Num by lra. rewrite !flog_pos by lra.
  cbn [fsub fneg fadd]. rewrite fdiv_Num by lra. reflexivity.
Qed.

(** C2 (what the code does). [np.select] returns the choice of the first
    condition that holds, so the pair [(X > E_clip, I_max)], which comes
    last, is never selected in [oetf_RIMMRGB] nor in [log_encoding_ERIMMRGB]:
    removing it changes no result.  An input above [E_clip] is encoded by the
    gamma (resp. logarithmic) branch, beyond the maximum code value:
    [oetf_RIMMRGB(3.0)] and [log_encoding_ERIMMRGB(400.0)] are above [1]. *)
Theorem clip_branch_never_selected :
  (forall X I E_clip,
      select_RIMM X I E_clip
      = np_select
          [ (flt_lt X (Num 0.0), Num 0);
            (flt_lt X (Num 0.018), fmul (Num 4.5) X);
            (flt_ge X (Num 0.018),
              fsub (fmul (Num 1.099) (fpow X 0.45)) (Num 0.099)) ])
  /\ (forall x I E_clip,
        0.018 <= x ->
        select_RIMM (Num x) I E_clip = Num (1.099 * Rpower x 0.45 - 0.099))
  /\ (forall x I E_min E_clip,
        0 < E_min < E_clip -> exp 1 * E_min < x ->
        select_ERIMM (Num x) I E_min E_clip
        = Num (I * ((ln x - ln E_min) / (ln E_clip - ln E_min))))
  /\ (exists v, oetf_RIMMRGB (Num 3.0) 8 false 2.0 = Ok (Num v) /\ 1 < v)
  /\ (exists v,
        log_encoding_ERIMMRGB (Num 400.0) 8 false 0.001 316.2 = Num v
        /\ 1 < v).
Proof.
  split; [exact select_RIMM_first_three |].
  split; [exact select_RIMM_gamma |].
  split; [exact select_ERIMM_log |].
  pose proof I_max_8 as HI. split.
  - destruct V_clip_2 as [HV HV1].
    eexists. split.
    + rewrite oetf_RIMMRGB_Ok by lra. cbv zeta.
      rewrite select_RIMM_gamma by lra. cbn [fmul].
      rewrite fdiv_Num by lra. reflexivity.
    + rewrite HI, HV.
      assert (Hp : Rpower 2 0.45 < Rpower 3.0 0.45)
        by (apply Rlt_Rpower_l; lra).
      pose proof (Rpower_gt_1 2 0.45 ltac:(lra) ltac:(lra)) as H2.
      set (p2 := Rpower 2 0.45) in *. set (p3 := Rpower 3.0 0.45) in *.
      replace ((1.099 * p3 - 0.099) * (255 / (1.099 * p2 - 0.099)) / 255)
        with ((1.099 * p3 - 0.099) / (1.099 * p2 - 0.099)) by (field; lra).
      apply Rmult_lt_reg_r with (1.099 * p2 - 0.099); [lra |].
      unfold Rdiv. rewrite Rmult_assoc, Rinv_l by lra. lra.
  - pose proof exp_1_bounds as He.
    pose proof (log_range_pos 0.001 316.2 ltac:(lra)) as HD.
    eexists. split.
    + unfold log_encoding_ERIMMRGB, as_numeric.
      rewrite select_ERIMM_log by lra.
      rewrite fdiv_Num by lra. reflexivity.
    + rewrite HI.
      assert (Hl : ln 316.2 < ln 400.0) by (apply ln_increasing; lra).
      set (D := ln 316.2 - ln 0.001) in *.
      replace (255 * ((ln 400.0 - ln 0.001) / D) / 255)
        with ((ln 400.0 - ln 0.001) / D) by (field; lra).
      apply Rmult_lt_reg_r with D; [lra |].
      unfold Rdiv. rewrite Rmult_assoc, Rinv_l by lra. subst D. lra.
Qed.

(** ** Real powers *)

Lemma Rpower_inverse (x y : R) :
  0 < x -> y <> 0 -> Rpower (Rpower x y) (1 / y) = x.
Proof.
  intros Hx Hy. rewrite Rpower_mult.
  replace (y * (1 / y)) with 1 by now field.
  now apply Rpower_1.
Qed.

Lemma Rpower_pos (x y : R) : 0 < Rpower x y.
Proof. unfold Rpower. apply exp_pos. Qed.

(** A rational power is bounded below by [c] as soon as [c ^ q <= a ^ p]. *)
Lemma Rpower_lower_bound (a c : R) (p q : nat) :
  0 < a -> 0 < c -> (0 < q)%nat -> c ^ q <= a ^ p ->
  c <= Rpower a (INR p / INR q).
Proof.
  intros Ha Hc Hq Hle.
  destruct (Rle_lt_dec c (Rpower a (INR p / INR q))) as [H | H]; [exact H |].
  exfalso.
  assert (HQ : 0 < INR q) by now apply lt_0_INR.
  assert (Hlt : Rpower (Rpower a (INR p / INR q)) (INR q) < Rpower c (INR q)).
  { apply Rlt_Rpower_l; [exact HQ |]. split; [apply Rpower_pos | exact H]. }
  rewrite Rpower_mult in Hlt.
  replace (INR p / INR q * INR q) with (INR p) in Hlt by (field; lra).
  rewrite !Rpower_pow in Hlt by assumption. lra.
Qed.

Lemma Rpower_018 : 0.18 / 1.099 <= Rpower 0.018 0.45 < 1.
Proof.
  split.
  - replace 0.45 with (INR 9 / INR 20) by (simpl; lra).
    apply Rpower_lower_bound; [lra | lra | lia | lra].
  - rewrite <- (Rpower_O 0.018) by lra.
    unfold Rpower. apply exp_increasing.
    assert (ln 0.018 < 0).
    { rewrite <- ln_1. apply ln_increasing; lra. }
    nra.
Qed.

(** The gamma segment of the RIMM curve, before scaling. *)
Lemma RIMM_gamma_monotone (x : R) :
  0.018 <= x ->
  4.5 * 0.018 <= 1.099 * Rpower 0.018 0.45 - 0.099
               <= 1.099 * Rpower x 0.45 - 0.099.
Proof.
  intros Hx. pose proof Rpower_018 as [H1 _].
  assert (H2 : Rpower 0.018 0.45 <= Rpower x 0.45)
    by (apply Rle_Rpower_l; lra).
  lra.
Qed.

Lemma ln_E_t_ERIMM (E_min : R) :
  0 < E_min -> ln (exp 1 * E_min) - ln E_min = 1.
Proof.
  intros H. rewrite ln_mult by (try apply exp_pos; assumption).
  rewrite ln_exp. lra.
Qed.

(** ** Decoders on finite inputs *)

Lemma eotf_ROMMRGB_Num (y : R) (b : Z) :
  (0 < b)%Z ->
  eotf_ROMMRGB (Num y) b false
  = if Rlt_dec y (16 * E_t_ROMM) then Num (y / 16) else fpow (Num y) 1.8.
Proof.
  intros Hb. apply I_max_pos in Hb.
  unfold eotf_ROMMRGB, as_numeric, np_where. cbn [negb fmul flt_lt].
  unfold Rltb.
  destruct (Rlt_dec y (16 * E_t_ROMM)) as [Hy | Hy];
    destruct (Rlt_dec (y * I_max b) (16 * E_t_ROMM * I_max b)) as [Hy' | Hy'];
    try (exfalso; nra).
  - rewrite fdiv_Num by lra. f_equal. field. lra.
  - rewrite fdiv_Num by lra. do 2 f_equal. field. lra.
Qed.

Lemma roundtrip_ROMM_exact (x : R) (b : Z) :
  0 <= x -> (0 < b)%Z -> roundtrip_ROMM (Num x) b = Num x.
Proof.
  intros Hx Hb. unfold roundtrip_ROMM.
  rewrite oetf_ROMMRGB_Num by lia.
  rewrite eotf_ROMMRGB_Num by assumption.
  pose proof E_t_ROMM_pos as Ht.
  assert (Hknee : 16 * E_t_ROMM = Rpower E_t_ROMM (1 / 1.8)).
  { rewrite E_t_ROMM_root, E_t_ROMM_value. lra. }
  destruct (Rlt_dec x E_t_ROMM) as [Hlt | Hge].
  - destruct (Rlt_dec (16 * x) (16 * E_t_ROMM)); [| lra].
    f_equal. lra.
  - assert (Hp : Rpower E_t_ROMM (1 / 1.8) <= Rpower x (1 / 1.8))
      by (apply Rle_Rpower_l; lra).
    destruct (Rlt_dec (Rpower x (1 / 1.8)) (16 * E_t_ROMM)); [lra |].
    rewrite fpow_pos by apply Rpower_pos.
    f_equal. rewrite Rpower_mult.
    replace (1 / 1.8 * 1.8) with 1 by lra.
    apply Rpower_1. lra.
Qed.

Lemma eotf_RIMMRGB_Num (y : R) (b : Z) (E_clip : R) :
  (0 < b)%Z -> 0 <= E_clip -> V_clip E_clip <> 0 ->
  let V := V_clip E_clip in
  let knee := (1.099 * Rpower 0.018 0.45 - 0.099) / V in
  eotf_RIMMRGB (Num y) b false E_clip
  = Ok (if Rlt_dec y knee then Num (V * y / 4.5)
        else fpow (Num ((V * y + 0.099) / 1.099)) (1 / 0.45)).
Proof.
  intros Hb HE HV V knee. apply I_max_pos in Hb.
  assert (HV' : V <> 0) by exact HV.
  unfold eotf_RIMMRGB. rewrite V_clip_of_Ok by assumption. cbn [bind negb].
  rewrite oetf_RIMMRGB_Ok by assumption. cbv zeta. cbn [bind].
  rewrite select_RIMM_gamma by lra.
  unfold as_numeric, np_where. cbn [fmul fadd].
  rewrite !fdiv_Num by lra. cbn [flt_lt fadd]. rewrite !fdiv_Num by lra.
  fold V. unfold Rltb.
  replace (y * I_max b / I_max b) with y by (field; lra).
  replace ((1.099 * Rpower 0.018 0.45 - 0.099) * (I_max b / V) / I_max b)
    with knee by (unfold knee; field; split; (assumption || lra)).
  replace (V * (y * I_max b) / I_max b) with (V * y) by (field; lra).
  now destruct (Rlt_dec y knee).
Qed.

Lemma roundtrip_RIMM_exact (x : R) (b : Z) (E_clip : R) :
  0 <= x -> (0 < b)%Z -> 0 <= E_clip -> 0 < V_clip E_clip ->
  roundtrip_RIMM (Num x) b E_clip = Ok (Num x).
Proof.
  intros Hx Hb HE HV. pose proof (I_max_pos _ Hb) as HI.
  assert (HVn : V_clip E_clip <> 0) by lra.
  unfold roundtrip_RIMM. rewrite oetf_RIMMRGB_Ok by lra. cbv zeta. cbn [bind].
  set (V := V_clip E_clip) in *.
  destruct (Rlt_le_dec x 0.018) as [Hlt | Hge].
  - rewrite select_RIMM_linear by lra. cbn [fmul]. rewrite fdiv_Num by lra.
    replace (4.5 * x * (I_max b / V) / I_max b) with (4.5 * x / V)
      by (field; split; lra).
    rewrite eotf_RIMMRGB_Num by (assumption || lra). cbv zeta. fold V.
    pose proof (RIMM_gamma_monotone 0.018 ltac:(lra)) as [Hk _].
    destruct (Rlt_dec (4.5 * x / V) ((1.099 * Rpower 0.018 0.45 - 0.099) / V))
      as [_ | Hn].
    + do 2 f_equal. field. lra.
    + exfalso. apply Hn. apply Rmult_lt_compat_r; [| lra].
      now apply Rinv_0_lt_compat.
  - rewrite select_RIMM_gamma by lra. cbn [fmul]. rewrite fdiv_Num by lra.
    set (g := 1.099 * Rpower x 0.45 - 0.099).
    replace (g * (I_max b / V) / I_max b) with (g / V)
      by (field; split; lra).
    rewrite eotf_RIMMRGB_Num by (assumption || lra). cbv zeta. fold V.
    pose proof (RIMM_gamma_monotone x Hge) as [_ Hk]. fold g in Hk.
    destruct (Rlt_dec (g / V) ((1.099 * Rpower 0.018 0.45 - 0.099) / V))
      as [Hy | _].
    + exfalso. apply Rmult_lt_reg_r in Hy; [lra |].
      now apply Rinv_0_lt_compat.
    + replace ((V * (g / V) + 0.099) / 1.099) with (Rpower x 0.45)
        by (unfold g; field; lra).
      rewrite fpow_pos by apply Rpower_pos.
      do 2 f_equal. apply Rpower_inverse; lra.
Qed.

(** ** The ERIMM pair *)

Lemma select_ERIMM_ramp (x I E_min E_clip : R) :
  0 < E_min < E_clip -> 0 <= x <= exp 1 * E_min ->
  select_ERIMM (Num x) I E_min E_clip
  = Num (I * (1 / (ln E_clip - ln E_min)) * (x / (exp 1 * E_min))).
Proof.
  intros HE Hx. pose proof exp_1_bounds as He.
  pose proof (log_range_pos _ _ HE) as HD.
  assert (Ht : 0 < exp 1 * E_min) by nra.
  rewrite select_ERIMM_first_three. cbv zeta. rewrite E_t_ERIMM_Num.
  cbn [np_select flt_lt flt_le flt_gt].
  rewrite Rltb_false by lra. rewrite Rleb_true by lra.
  rewrite log_range_Num by lra. rewrite !flog_pos by lra.
  cbn [fsub fneg fadd]. rewrite !fdiv_Num by lra. cbn [fmul].
  pose proof (ln_E_t_ERIMM E_min ltac:(lra)) as HL.
  replace (ln (exp 1 * E_min) + - ln E_min) with 1 by lra.
  reflexivity.
Qed.

Lemma log_decoding_ERIMMRGB_Num (y : R) (b : Z) (E_min E_clip : R) :
  (0 < b)%Z -> 0 < E_min < E_clip ->
  let D := ln E_clip - ln E_min in
  log_decoding_ERIMMRGB (Num y) b false E_min E_clip
  = Num (if Rle_dec y (1 / D) then D * (y * (exp 1 * E_min))
         else exp (y * D + ln E_min)).
Proof.
  intros Hb HE D. apply I_max_pos in Hb.
  pose proof exp_1_bounds as He.
  pose proof (log_range_pos _ _ HE) as HD. fold D in HD.
  assert (Ht : 0 < exp 1 * E_min) by nra.
  assert (HiD : 0 < / D) by now apply Rinv_0_lt_compat.
  unfold log_decoding_ERIMMRGB, as_numeric, np_where. cbn [negb].
  rewrite E_t_ERIMM_Num, log_range_Num by lra. rewrite !flog_pos by lra.
  fold D. cbn [fsub fneg fadd fmul].
  pose proof (ln_E_t_ERIMM E_min ltac:(lra)) as HL.
  replace (ln (exp 1 * E_min) + - ln E_min) with 1 by lra.
  rewrite !fdiv_Num by lra. cbn [fmul fadd fexp flt_le]. unfold Rleb.
  destruct (Rle_dec y (1 / D)) as [Hy | Hy];
    destruct (Rle_dec (y * I_max b) (I_max b * (1 / D))) as [Hy' | Hy'].
  - f_equal. field. lra.
  - exfalso. apply Hy'. rewrite (Rmult_comm y).
    apply Rmult_le_compat_l; lra.
  - exfalso. apply Hy. rewrite (Rmult_comm y) in Hy'.
    apply Rmult_le_reg_l in Hy'; lra.
  - do 2 f_equal. field. lra.
Qed.

Lemma roundtrip_ERIMM_exact (x : R) (b : Z) (E_min E_clip : R) :
  0 <= x -> (0 < b)%Z -> 0 < E_min < E_clip ->
  roundtrip_ERIMM (Num x) b E_min E_clip = Num x.
Proof.
  intros Hx Hb HE. pose proof (I_max_pos _ Hb) as HI.
  pose proof exp_1_bounds as He.
  pose proof (log_range_pos _ _ HE) as HD.
  assert (Ht : 0 < exp 1 * E_min) by nra.
  unfold roundtrip_ERIMM, log_encoding_ERIMMRGB, as_numeric.
  set (D := ln E_clip - ln E_min) in *.
  assert (HiD : 0 < / D) by now apply Rinv_0_lt_compat.
  destruct (Rle_lt_dec x (exp 1 * E_min)) as [Hle | Hgt].
  - rewrite select_ERIMM_ramp by lra. fold D.
    rewrite fdiv_Num by lra.
    rewrite log_decoding_ERIMMRGB_Num by assumption. cbv zeta. fold D.
    set (t := exp 1 * E_min) in *.
    replace (I_max b * (1 / D) * (x / t) / I_max b) with (1 / D * (x / t))
      by (field; repeat split; lra).
    assert (Hxt : x / t <= 1).
    { apply Rmult_le_reg_r with t; [lra |].
      unfold Rdiv. rewrite Rmult_assoc, Rinv_l by lra. lra. }
    destruct (Rle_dec (1 / D * (x / t)) (1 / D)) as [_ | Hn].
    + f_equal. field. split; lra.
    + exfalso. apply Hn. unfold Rdiv at 1 3. rewrite Rmult_1_l.
      rewrite <- (Rmult_1_r (/ D)) at 2.
      apply Rmult_le_compat_l; lra.
  - assert (Hx0 : 0 < x) by lra.
    rewrite select_ERIMM_log by lra. fold D.
    rewrite fdiv_Num by lra.
    rewrite log_decoding_ERIMMRGB_Num by assumption. cbv zeta. fold D.
    replace (I_max b * ((ln x - ln E_min) / D) / I_max b)
      with ((ln x - ln E_min) / D) by (field; split; lra).
    assert (Hln : 1 < ln x - ln E_min).
    { pose proof (ln_E_t_ERIMM E_min ltac:(lra)) as HL.
      pose proof (ln_increasing _ _ Ht Hgt). lra. }
    destruct (Rle_dec ((ln x - ln E_min) / D) (1 / D)) as [Hy | _].
    + exfalso. unfold Rdiv in Hy.
      apply Rmult_le_reg_r in Hy; lra.
    + f_equal.
      replace ((ln x - ln E_min) / D * D + ln E_min) with (ln x)
        by (field; lra).
      now apply exp_ln.
Qed.

(** A clip level at or above the knee keeps [V_clip] away from zero. *)
Lemma V_clip_from_knee (E_clip : R) : 0.018 <= E_clip -> 0.081 <= V_clip E_clip.
Proof.
  intros HE. unfold V_clip. rewrite py_pow_pos by lra.
  pose proof Rpower_018 as [Hp _].
  assert (H : Rpower 0.018 0.45 <= Rpower E_clip 0.45)
    by (apply Rle_Rpower_l; lra).
  lra.
Qed.

Lemma within_exact (tol x : R) : 0 <= tol -> within tol (Num x) x.
Proof.
  intros H. cbn [within].
  replace (x - x) with 0 by ring. now rewrite Rabs_R0.
Qed.

(** C1 (as the code has it). For every [x] in [[0, 1]] and every bit depth
    from 1 to 64, decoding the float output of the encoder gives a number
    within [1e-7] of [x]: for the ROMM pair; for the RIMM pair at every clip
    level at or above the knee, [E_clip >= 0.018]; for the ERIMM pair at
    every [E_min > 0] and every clip level at or above the knee,
    [E_clip >= e * E_min].  (In the exact arithmetic of this model the
    decoder returns [x] itself, see [roundtrip_ROMM_exact],
    [roundtrip_RIMM_exact] and [roundtrip_ERIMM_exact].) *)
Theorem roundtrip_within_tolerance (x : R) (bit_depth : Z) :
  0 <= x <= 1 -> (0 < bit_depth <= 64)%Z ->
  within 1e-7 (roundtrip_ROMM (Num x) bit_depth) x
  /\ (forall E_clip,
        0.018 <= E_clip ->
        exists a,
          roundtrip_RIMM (Num x) bit_depth E_clip = Ok a
          /\ within 1e-7 a x)
  /\ (forall E_min E_clip,
        0 < E_min -> exp 1 * E_min <= E_clip ->
        within 1e-7 (roundtrip_ERIMM (Num x) bit_depth E_min E_clip) x).
Proof.
  intros [Hx _] [Hb _].
  assert (Htol : 0 <= 1e-7) by lra.
  split; [| split].
  - rewrite roundtrip_ROMM_exact by assumption. now apply within_exact.
  - intros E_clip HE. pose proof (V_clip_from_knee E_clip HE) as HV.
    exists (Num x). split; [| now apply within_exact].
    apply roundtrip_RIMM_exact; (assumption || lra).
  - intros E_min E_clip HE Ht.
    rewrite roundtrip_ERIMM_exact; [now apply within_exact | | |];
      try assumption.
    pose proof exp_1_bounds as [He _].
    assert (E_min < exp 1 * E_min) by nra. lra.
Qed.

(** C1 at the input [0.18], the bit depth 8 and the default parameters of
    the three pairs. *)
Lemma roundtrip_within_tolerance_witness :
  0 <= 0.18 <= 1 /\ (0 < 8 <= 64)%Z
  /\ within 1e-7 (roundtrip_ROMM (Num 0.18) 8) 0.18
  /\ (exists a,
        roundtrip_RIMM (Num 0.18) 8 2.0 = Ok a /\ within 1e-7 a 0.18)
  /\ within 1e-7 (roundtrip_ERIMM (Num 0.18) 8 0.001 316.2) 0.18.
Proof.
  assert (H1 : 0 <= 0.18 <= 1) by lra.
  assert (H2 : (0 < 8 <= 64)%Z) by lia.
  pose proof (roundtrip_within_tolerance 0.18 8 H1 H2) as [Ha [Hb Hc]].
  split; [exact H1 |]. split; [exact H2 |]. split; [exact Ha |]. split.
  - apply Hb. lra.
  - apply Hc; [lra |]. pose proof exp_1_bounds as [_ He]. lra.
Defined.

Lemma V_clip_0 : V_clip 0.0 = - 0.099.
Proof.
  unfold V_clip, py_pow.
  destruct (Req_dec_T 0.0 0) as [_ | H]; [lra | exfalso; apply H; lra].
Qed.

(** C1, counterexample: with [E_clip = 0.0], [V_clip] is [-0.099]; the
    encoder sends [0.0] to zero, the knee the decoder recomputes is negative,
    and the decoder answers [(0.099 / 1.099) ** (1 / 0.45)], above [0.004]. *)
Lemma roundtrip_RIMM_fails_at_E_clip_0 :
  exists y,
    roundtrip_RIMM (Num 0) 8 0.0 = Ok (Num y) /\ 1e-7 < Rabs (y - 0).
Proof.
  pose proof V_clip_0 as HV. pose proof I_max_8 as HI.
  pose proof Rpower_018 as [Hp _].
  exists (Rpower (0.099 / 1.099) (1 / 0.45)). split.
  - unfold roundtrip_RIMM. rewrite oetf_RIMMRGB_Ok by lra. cbv zeta. cbn [bind].
    rewrite select_RIMM_linear by lra. cbn [fmul]. rewrite fdiv_Num by lra.
    rewrite eotf_RIMMRGB_Num by (lia || lra). cbv zeta.
    rewrite HV, HI.
    replace (4.5 * 0 * (255 / - 0.099) / 255) with 0 by (field; lra).
    destruct (Rlt_dec 0 ((1.099 * Rpower 0.018 0.45 - 0.099) / - 0.099))
      as [Hk | _].
    + exfalso.
      assert (Hg : 0 < 1.099 * Rpower 0.018 0.45 - 0.099) by lra.
      lra.
    + replace ((- 0.099 * 0 + 0.099) / 1.099) with (0.099 / 1.099) by lra.
      rewrite fpow_pos by lra. reflexivity.
  - assert (Hy : 0.004 <= Rpower (0.099 / 1.099) (1 / 0.45)).
    { replace (1 / 0.45) with (INR 20 / INR 9) by (simpl; lra).
      apply Rpower_lower_bound; [lra | lra | lia | lra]. }
    rewrite Rminus_0_r, Rabs_right; lra.
Qed.

(** ** Bit depths that are not positive *)























(** ** Infinities and NaN *)








Lemma Rpower_base_1 (y : R) : Rpower 1 y = 1.
Proof. unfold Rpower. now rewrite ln_1, Rmult_0_r, exp_0. Qed.

Section SpecialInputs.

Variable bit_depth : Z.
Hypothesis bit_depth_pos : (0 < bit_depth)%Z.

Let I := I_max bit_depth.








(** *** RIMM *)

Variable E_clip : R.
Hypothesis E_clip_nonneg : 0 <= E_clip.
Hypothesis V_clip_pos : 0 < V_clip E_clip.

Let V := V_clip E_clip.
Let knee := (1.099 * Rpower 0.018 0.45 - 0.099) / V.


Lemma select_RIMM_NaN : select_RIMM NaN I E_clip = Num 0.
Proof. reflexivity. Qed.









End SpecialInputs.


Section SpecialInputsERIMM.

Variable bit_depth : Z.
Hypothesis bit_depth_pos : (0 < bit_depth)%Z.
Variables E_min E_clip : R.
Hypothesis E_range : 0 < E_min < E_clip.

Local Abbreviation I := (I_max bit_depth).
Local Abbreviation D := (ln E_clip - ln E_min).
Local Abbreviation t := (exp 1 * E_min).


Lemma select_ERIMM_NaN : select_ERIMM NaN I E_min E_clip = Num 0.
Proof. reflexivity. Qed.










End SpecialInputsERIMM.

(** ** The functions on [-1.0, 0.0, 1.0, -inf, inf, nan] *)












Import SpectralSensitivities.
Local Open Scope string_scope.

(** ** The spectral-sensitivity store *)

Lemma store_data :
  _data DSL_CAMERAS_RGB_SPECTRAL_SENSITIVITIES
  = <[ "sigma sdmerill (npl)" := Sigma_SDMerill_NPL ]>
      (<[ "nikon 5100 (npl)" := Nikon_5100_NPL ]> ∅).
Proof. reflexivity. Qed.

Lemma getitem_lower {V} (m : CaseInsensitiveMapping V) (a b : string) :
  lower a = lower b -> getitem m a = getitem m b.
Proof. intros H. unfold getitem. now rewrite H. Qed.

Lemma getitem_Nikon :
  getitem DSL_CAMERAS_RGB_SPECTRAL_SENSITIVITIES "Nikon 5100 (NPL)"
  = inl Nikon_5100_NPL.
Proof.
  unfold getitem. rewrite store_data.
  change (lower "Nikon 5100 (NPL)") with "nikon 5100 (npl)".
  rewrite lookup_insert_ne by discriminate.
  now rewrite lookup_insert_eq.
Qed.

Lemma getitem_Sigma :
  getitem DSL_CAMERAS_RGB_SPECTRAL_SENSITIVITIES "Sigma SDMerill (NPL)"
  = inl Sigma_SDMerill_NPL.
Proof.
  unfold getitem. rewrite store_data.
  change (lower "Sigma SDMerill (NPL)") with "sigma sdmerill (npl)".
  now rewrite lookup_insert_eq.
Qed.

Lemma getitem_other (item : string) :
  lower item <> lower "Nikon 5100 (NPL)" ->
  lower item <> lower "Sigma SDMerill (NPL)" ->
  getitem DSL_CAMERAS_RGB_SPECTRAL_SENSITIVITIES item = inr NotFoundError.
Proof.
  intros HN HS. unfold getitem. rewrite store_data.
  rewrite lookup_insert_ne by (intros E; apply HS; now rewrite <- E).
  rewrite lookup_insert_ne by (intros E; apply HN; now rewrite <- E).
  now rewrite lookup_empty.
Qed.

(** The data of a camera holds its three tables. *)
Lemma Nikon_data :
  data Nikon_5100_NPL
  = {| red := Nikon_5100_NPL_red;
       green := Nikon_5100_NPL_green;
       blue := Nikon_5100_NPL_blue |}.
Proof. reflexivity. Qed.

(** C7. Lookup goes through the lower-cased name: a name equal to
    ["Nikon 5100 (NPL)"] or to ["Sigma SDMerill (NPL)"] up to the case of its
    letters returns the record stored under that key, and any other ASCII
    name fails with [NotFoundError] and returns no record. *)
Theorem lookup_is_case_insensitive :
  (forall item,
      lower item = lower "Nikon 5100 (NPL)" ->
      getitem DSL_CAMERAS_RGB_SPECTRAL_SENSITIVITIES item
      = getitem DSL_CAMERAS_RGB_SPECTRAL_SENSITIVITIES "Nikon 5100 (NPL)"
      /\ getitem DSL_CAMERAS_RGB_SPECTRAL_SENSITIVITIES item
         = inl Nikon_5100_NPL)
  /\ (forall item,
      lower item = lower "Sigma SDMerill (NPL)" ->
      getitem DSL_CAMERAS_RGB_SPECTRAL_SENSITIVITIES item
      = getitem DSL_CAMERAS_RGB_SPECTRAL_SENSITIVITIES "Sigma SDMerill (NPL)"
      /\ getitem DSL_CAMERAS_RGB_SPECTRAL_SENSITIVITIES item
         = inl Sigma_SDMerill_NPL)
  /\ (forall item,
      isascii item = true ->
      lower item <> lower "Nikon 5100 (NPL)" ->
      lower item <> lower "Sigma SDMerill (NPL)" ->
      getitem DSL_CAMERAS_RGB_SPECTRAL_SENSITIVITIES item
      = inr NotFoundError)
  /\ getitem DSL_CAMERAS_RGB_SPECTRAL_SENSITIVITIES "nikon 5100 (npl)"
     = getitem DSL_CAMERAS_RGB_SPECTRAL_SENSITIVITIES "Nikon 5100 (NPL)"
  /\ getitem DSL_CAMERAS_RGB_SPECTRAL_SENSITIVITIES "Canon 5D"
     = inr NotFoundError.
Proof.
  split; [| split; [| split; [| split]]].
  - intros item H. rewrite (getitem_lower _ _ _ H). split; [reflexivity |].
    apply getitem_Nikon.
  - intros item H. rewrite (getitem_lower _ _ _ H). split; [reflexivity |].
    apply getitem_Sigma.
  - intros item _. apply getitem_other.
  - now apply getitem_lower.
  - apply getitem_other; discriminate.
Qed.

(** * Further properties *)

(** ** Rounding *)

Lemma Int_part_bounds (r : R) : IZR (Int_part r) <= r < IZR (Int_part r) + 1.
Proof. destruct (base_Int_part r). lra. Qed.

Lemma Int_part_monotone (x y : R) : x <= y -> (Int_part x <= Int_part y)%Z.
Proof.
  intros H. pose proof (Int_part_bounds x). pose proof (Int_part_bounds y).
  assert (Hlt : IZR (Int_part x) < IZR (Int_part y + 1)).
  { rewrite plus_IZR. lra. }
  apply lt_IZR in Hlt. lia.
Qed.

Lemma round_half_even_cases (r : R) :
  round_half_even r = Int_part r \/ round_half_even r = (Int_part r + 1)%Z.
Proof.
  unfold round_half_even.
  destruct (Rlt_dec _ _); [now left |].
  destruct (Rlt_dec _ _); [now right |].
  destruct (Z.even _); [now left | now right].
Qed.

Lemma round_half_even_monotone (x y : R) :
  x <= y -> (round_half_even x <= round_half_even y)%Z.
Proof.
  intros H. pose proof (Int_part_monotone x y H) as Hf.
  destruct (Z.eq_dec (Int_part x) (Int_part y)) as [E | NE].
  - unfold round_half_even. rewrite E.
    destruct (Rlt_dec (x - IZR (Int_part y)) (1 / 2));
      destruct (Rlt_dec (y - IZR (Int_part y)) (1 / 2)); try lia; try lra.
    + destruct (Rlt_dec (1 / 2) (y - IZR (Int_part y))); [lia |].
      destruct (Z.even (Int_part y)); lia.
    + destruct (Rlt_dec (1 / 2) (x - IZR (Int_part y)));
        destruct (Rlt_dec (1 / 2) (y - IZR (Int_part y))); try lia; try lra.
      destruct (Z.even (Int_part y)); lia.
  - destruct (round_half_even_cases x) as [-> | ->];
      destruct (round_half_even_cases y) as [-> | ->]; lia.
Qed.

(** The rounding of a number between two integers stays between them. *)
Lemma round_half_even_between (lo hi : Z) (r : R) :
  IZR lo <= r <= IZR hi -> (lo <= round_half_even r <= hi)%Z.
Proof.
  intros [H1 H2].
  apply round_half_even_monotone in H1. apply round_half_even_monotone in H2.
  rewrite round_half_even_IZR in H1, H2. lia.
Qed.

(** For a bit depth that is not negative, [I_max] is the integer
    [2 ^ bit_depth - 1]. *)
Lemma I_max_IZR (b : Z) : (0 <= b)%Z -> I_max b = IZR (2 ^ b - 1).
Proof.
  intros Hb. unfold I_max. rewrite minus_IZR. f_equal.
  destruct b as [| p | p]; try lia.
  - simpl. lra.
  - cbn [powerRZ]. rewrite <- (positive_nat_Z p), <- pow_IZR.
    reflexivity.
Qed.

(** ** The encoders on finite inputs *)

Lemma oetf_ROMMRGB_curve (x : R) (b : Z) :
  b <> 0%Z -> oetf_ROMMRGB (Num x) b false = Num (ROMM_curve x).
Proof. intros Hb. now rewrite oetf_ROMMRGB_Num. Qed.

Lemma oetf_ROMMRGB_code (x : R) (b : Z) :
  oetf_ROMMRGB (Num x) b true
  = Num (IZR (round_half_even (ROMM_curve x * I_max b))).
Proof.
  unfold oetf_ROMMRGB, ROMM_curve, as_numeric, np_where. cbn [flt_lt].
  unfold Rltb. pose proof E_t_ROMM_pos.
  destruct (Rlt_dec x E_t_ROMM).
  - cbn [fmul np_round]. do 3 f_equal. ring.
  - rewrite fpow_pos by lra. reflexivity.
Qed.

Lemma select_RIMM_curve (x I E_clip : R) :
  select_RIMM (Num x) I E_clip = Num (RIMM_curve x).
Proof.
  unfold RIMM_curve.
  destruct (Rlt_dec x 0) as [H0 | H0].
  - apply select_RIMM_neg, Rltb_true, H0.
  - destruct (Rlt_dec x 0.018).
    + apply select_RIMM_linear. lra.
    + apply select_RIMM_gamma. lra.
Qed.

Lemma oetf_RIMMRGB_curve (x : R) (b : Z) (E_clip : R) :
  b <> 0%Z -> 0 <= E_clip -> V_clip E_clip <> 0 ->
  oetf_RIMMRGB (Num x) b false E_clip
  = Ok (Num (RIMM_curve x / V_clip E_clip)).
Proof.
  intros Hb HE HV. apply I_max_nonzero in Hb.
  rewrite oetf_RIMMRGB_Ok by assumption. cbv zeta.
  rewrite select_RIMM_curve. cbn [fmul]. rewrite fdiv_Num by assumption.
  do 2 f_equal. now field.
Qed.

Lemma oetf_RIMMRGB_code (x : R) (b : Z) (E_clip : R) :
  0 <= E_clip -> V_clip E_clip <> 0 ->
  oetf_RIMMRGB (Num x) b true E_clip
  = Ok (Num (IZR (round_half_even
                    (RIMM_curve x / V_clip E_clip * I_max b)))).
Proof.
  intros HE HV.
  rewrite oetf_RIMMRGB_Ok by assumption. cbv zeta.
  rewrite select_RIMM_curve. cbn [fmul np_round].
  do 4 f_equal. now field.
Qed.

Lemma select_ERIMM_curve (x I E_min E_clip : R) :
  0 < E_min < E_clip ->
  select_ERIMM (Num x) I E_min E_clip = Num (I * ERIMM_curve E_min E_clip x).
Proof.
  intros HE. unfold ERIMM_curve.
  pose proof exp_1_bounds as He.
  pose proof (log_range_pos _ _ HE) as HD.
  assert (Ht : 0 < exp 1 * E_min) by nra.
  destruct (Rlt_dec x 0) as [H0 | H0].
  - rewrite select_ERIMM_neg by now apply Rltb_true.
    f_equal. ring.
  - destruct (Rle_dec x (exp 1 * E_min)).
    + rewrite select_ERIMM_ramp by (assumption || (split; lra)).
      f_equal. field. repeat split; lra.
    + now rewrite select_ERIMM_log by (assumption || lra).
Qed.

Lemma log_encoding_ERIMMRGB_curve (x : R) (b : Z) (E_min E_clip : R) :
  b <> 0%Z -> 0 < E_min < E_clip ->
  log_encoding_ERIMMRGB (Num x) b false E_min E_clip
  = Num (ERIMM_curve E_min E_clip x).
Proof.
  intros Hb HE. apply I_max_nonzero in Hb.
  unfold log_encoding_ERIMMRGB, as_numeric.
  rewrite select_ERIMM_curve by assumption.
  rewrite fdiv_Num by assumption. f_equal. now field.
Qed.

Lemma log_encoding_ERIMMRGB_code (x : R) (b : Z) (E_min E_clip : R) :
  0 < E_min < E_clip ->
  log_encoding_ERIMMRGB (Num x) b true E_min E_clip
  = Num (IZR (round_half_even (ERIMM_curve E_min E_clip x * I_max b))).
Proof.
  intros HE. unfold log_encoding_ERIMMRGB, as_numeric.
  rewrite select_ERIMM_curve by assumption. cbn [np_round].
  do 3 f_equal. ring.
Qed.

(** ** Shape of the curves *)

Lemma knee_ROMM : 16 * E_t_ROMM = Rpower E_t_ROMM (1 / 1.8).
Proof. rewrite E_t_ROMM_root, E_t_ROMM_value. lra. Qed.

Lemma ROMM_curve_monotone (x y : R) : x <= y -> ROMM_curve x <= ROMM_curve y.
Proof.
  intros H. unfold ROMM_curve. pose proof E_t_ROMM_pos. pose proof knee_ROMM.
  destruct (Rlt_dec x E_t_ROMM); destruct (Rlt_dec y E_t_ROMM); try lra.
  - assert (Rpower E_t_ROMM (1 / 1.8) <= Rpower y (1 / 1.8))
      by (apply Rle_Rpower_l; lra).
    lra.
  - apply Rle_Rpower_l; lra.
Qed.

Lemma RIMM_curve_monotone (x y : R) : x <= y -> RIMM_curve x <= RIMM_curve y.
Proof.
  intros H. unfold RIMM_curve.
  destruct (Rlt_dec x 0); destruct (Rlt_dec y 0); try lra;
    destruct (Rlt_dec y 0.018); try lra;
    try (destruct (Rlt_dec x 0.018); try lra).
  - pose proof (RIMM_gamma_monotone y ltac:(lra)). lra.
  - pose proof (RIMM_gamma_monotone y ltac:(lra)). lra.
  - assert (Rpower x 0.45 <= Rpower y 0.45) by (apply Rle_Rpower_l; lra).
    lra.
Qed.

Lemma Rdiv_le_compat_pos (a b d : R) : 0 < d -> a <= b -> a / d <= b / d.
Proof.
  intros Hd H. unfold Rdiv. apply Rmult_le_compat_r; [| exact H].
  left. now apply Rinv_0_lt_compat.
Qed.

Lemma ERIMM_curve_monotone (E_min E_clip x y : R) :
  0 < E_min < E_clip -> x <= y ->
  ERIMM_curve E_min E_clip x <= ERIMM_curve E_min E_clip y.
Proof.
  intros HE H. unfold ERIMM_curve.
  pose proof exp_1_bounds as He.
  pose proof (log_range_pos _ _ HE) as HD.
  pose proof (ln_E_t_ERIMM E_min ltac:(lra)) as HL.
  set (D := ln E_clip - ln E_min) in *.
  set (t := exp 1 * E_min) in *.
  assert (Ht : 0 < t) by (unfold t; nra).
  assert (Hramp : forall u, 0 <= u -> 0 <= u / t / D).
  { intros u Hu. unfold Rdiv.
    assert (0 < / t) by now apply Rinv_0_lt_compat.
    assert (0 < / D) by now apply Rinv_0_lt_compat.
    apply Rmult_le_pos; [apply Rmult_le_pos |]; lra. }
  assert (Hlog : forall u, t < u -> 1 / D < (ln u - ln E_min) / D).
  { intros u Hu. pose proof (ln_increasing t u Ht Hu).
    unfold Rdiv. apply Rmult_lt_compat_r; [now apply Rinv_0_lt_compat | lra]. }
  assert (Hrt : forall u, u <= t -> u / t / D <= 1 / D).
  { intros u Hu. apply Rdiv_le_compat_pos; [lra |].
    replace 1 with (t / t) by (field; lra). apply Rdiv_le_compat_pos; lra. }
  destruct (Rlt_dec x 0); destruct (Rlt_dec y 0); try lra;
    destruct (Rle_dec y t); try lra;
    try (destruct (Rle_dec x t); try lra).
  - apply Hramp. lra.
  - specialize (Hlog y ltac:(lra)).
    assert (0 < 1 / D) by (apply Rdiv_lt_0_compat; lra). lra.
  - apply Rdiv_le_compat_pos; [lra |]. apply Rdiv_le_compat_pos; lra.
  - specialize (Hlog y ltac:(lra)). specialize (Hrt x ltac:(lra)). lra.
  - apply Rdiv_le_compat_pos; [lra |].
    assert (ln x <= ln y).
    { destruct H as [H | ->]; [left; apply ln_increasing; lra | lra]. }
    lra.
Qed.

Lemma round_scaled_monotone (u v I : R) :
  0 < I -> u <= v ->
  IZR (round_half_even (u * I)) <= IZR (round_half_even (v * I)).
Proof.
  intros HI H. apply IZR_le, round_half_even_monotone.
  apply Rmult_le_compat_r; lra.
Qed.

(** X1. The encoders never decrease: for finite [x <= y] and a positive bit
    depth, the output for [x] is at most the output for [y], as a float and
    as an integer code value; for [oetf_RIMMRGB] at every [E_clip >= 0] whose
    [V_clip] is positive, for [log_encoding_ERIMMRGB] at every
    [0 < E_min < E_clip]. *)
Theorem encoders_are_monotone (x y : R) (bit_depth : Z) (out_int : bool) :
  x <= y -> (0 < bit_depth)%Z ->
  flt_le (oetf_ROMMRGB (Num x) bit_depth out_int)
         (oetf_ROMMRGB (Num y) bit_depth out_int) = true
  /\ (forall E_clip,
        0 <= E_clip -> 0 < V_clip E_clip ->
        exists u v,
          oetf_RIMMRGB (Num x) bit_depth out_int E_clip = Ok (Num u)
          /\ oetf_RIMMRGB (Num y) bit_depth out_int E_clip = Ok (Num v)
          /\ u <= v)
  /\ (forall E_min E_clip,
        0 < E_min < E_clip ->
        flt_le (log_encoding_ERIMMRGB (Num x) bit_depth out_int E_min E_clip)
               (log_encoding_ERIMMRGB (Num y) bit_depth out_int E_min E_clip)
        = true).
Proof.
  intros H Hb. pose proof (I_max_pos _ Hb) as HI.
  pose proof (ROMM_curve_monotone x y H) as H1.
  pose proof (RIMM_curve_monotone x y H) as H2.
  split; [| split].
  - destruct out_int.
    + rewrite !oetf_ROMMRGB_code. apply Rleb_true.
      now apply round_scaled_monotone.
    + rewrite !oetf_ROMMRGB_curve by lia. now apply Rleb_true.
  - intros E HE HV.
    assert (Hq : RIMM_curve x / V_clip E <= RIMM_curve y / V_clip E)
      by now apply Rdiv_le_compat_pos.
    destruct out_int.
    + rewrite !oetf_RIMMRGB_code by lra. do 2 eexists.
      split; [reflexivity |]. split; [reflexivity |].
      now apply round_scaled_monotone.
    + rewrite !oetf_RIMMRGB_curve by (lia || lra). do 2 eexists.
      split; [reflexivity |]. split; [reflexivity | exact Hq].
  - intros E_min E_clip HE.
    pose proof (ERIMM_curve_monotone E_min E_clip x y HE H) as H3.
    destruct out_int.
    + rewrite !log_encoding_ERIMMRGB_code by assumption. apply Rleb_true.
      now apply round_scaled_monotone.
    + rewrite !log_encoding_ERIMMRGB_curve by (lia || assumption).
      now apply Rleb_true.
Qed.

(** X1 at [0.1 <= 0.2], the default bit depth and the integer output. *)
Lemma encoders_are_monotone_witness :
  0.1 <= 0.2 /\ (0 < 8)%Z
  /\ flt_le (oetf_ROMMRGB (Num 0.1) 8 true) (oetf_ROMMRGB (Num 0.2) 8 true)
     = true.
Proof.
  assert (H1 : 0.1 <= 0.2) by lra.
  assert (H2 : (0 < 8)%Z) by lia.
  split; [exact H1 |]. split; [exact H2 |].
  exact (proj1 (encoders_are_monotone 0.1 0.2 8 true H1 H2)).
Defined.

(** ** Ends of the range *)

Lemma ROMM_curve_0 : ROMM_curve 0 = 0.
Proof.
  unfold ROMM_curve. pose proof E_t_ROMM_pos.
  destruct (Rlt_dec 0 E_t_ROMM); lra.
Qed.

Lemma ROMM_curve_1 : ROMM_curve 1 = 1.
Proof.
  unfold ROMM_curve. rewrite E_t_ROMM_value.
  destruct (Rlt_dec 1 (/ 512)); [lra | apply Rpower_base_1].
Qed.

Lemma RIMM_curve_0 : RIMM_curve 0 = 0.
Proof.
  unfold RIMM_curve.
  destruct (Rlt_dec 0 0); [lra |]. destruct (Rlt_dec 0 0.018); lra.
Qed.

(** Above the knee, [V_clip] is the value of the RIMM curve at [E_clip], and
    it is positive. *)
Lemma RIMM_curve_E_clip (E_clip : R) :
  0.018 <= E_clip -> RIMM_curve E_clip = V_clip E_clip /\ 0 < V_clip E_clip.
Proof.
  intros HE. unfold RIMM_curve, V_clip. rewrite py_pow_pos by lra.
  destruct (Rlt_dec E_clip 0); [lra |].
  destruct (Rlt_dec E_clip 0.018); [lra |].
  split; [reflexivity |].
  pose proof (RIMM_gamma_monotone E_clip HE). lra.
Qed.

Lemma ERIMM_curve_0 (E_min E_clip : R) :
  0 < E_min < E_clip -> ERIMM_curve E_min E_clip 0 = 0.
Proof.
  intros HE. unfold ERIMM_curve. pose proof exp_1_bounds.
  pose proof (log_range_pos _ _ HE).
  assert (0 < exp 1 * E_min) by nra.
  destruct (Rlt_dec 0 0); [lra |].
  destruct (Rle_dec 0 (exp 1 * E_min)); [| lra].
  field. repeat split; lra.
Qed.

Lemma ERIMM_curve_E_clip (E_min E_clip : R) :
  0 < E_min -> exp 1 * E_min <= E_clip ->
  0 < E_min < E_clip /\ ERIMM_curve E_min E_clip E_clip = 1.
Proof.
  intros HE Ht. pose proof exp_1_bounds.
  assert (HE' : 0 < E_min < E_clip) by nra.
  split; [exact HE' |].
  pose proof (log_range_pos _ _ HE') as HD.
  pose proof (ln_E_t_ERIMM E_min HE) as HL.
  unfold ERIMM_curve.
  destruct (Rlt_dec E_clip 0); [lra |].
  destruct (Rle_dec E_clip (exp 1 * E_min)) as [Hle | Hgt].
  - assert (E : E_clip = exp 1 * E_min) by lra.
    rewrite <- E in HL. rewrite <- E, HL. field. lra.
  - field. lra.
Qed.

(** A curve value in [[0, 1]] gives a code value in [[0, I_max]]. *)
Lemma code_in_range (c : R) (b : Z) :
  (0 < b)%Z -> 0 <= c <= 1 ->
  (0 <= round_half_even (c * I_max b) <= 2 ^ b - 1)%Z.
Proof.
  intros Hb Hc. pose proof (I_max_pos _ Hb) as HI.
  apply round_half_even_between.
  rewrite <- I_max_IZR by lia. split; nra.
Qed.

Lemma unit_quotient (c V : R) : 0 < V -> 0 <= c <= V -> 0 <= c / V <= 1.
Proof.
  intros HV [H0 H1]. split.
  - replace 0 with (0 / V) by (field; lra). now apply Rdiv_le_compat_pos.
  - replace 1 with (V / V) by (field; lra). now apply Rdiv_le_compat_pos.
Qed.

Lemma ROMM_curve_unit (x : R) : 0 <= x <= 1 -> 0 <= ROMM_curve x <= 1.
Proof.
  intros [H0 H1].
  pose proof (ROMM_curve_monotone 0 x H0) as Ha.
  pose proof (ROMM_curve_monotone x 1 H1) as Hb.
  rewrite ROMM_curve_0 in Ha. rewrite ROMM_curve_1 in Hb. lra.
Qed.

Lemma RIMM_curve_unit (x E_clip : R) :
  0.018 <= E_clip -> 0 <= x <= E_clip ->
  0 <= RIMM_curve x / V_clip E_clip <= 1.
Proof.
  intros HE [H0 H1]. destruct (RIMM_curve_E_clip E_clip HE) as [HV HVp].
  apply unit_quotient; [exact HVp |].
  pose proof (RIMM_curve_monotone 0 x H0) as Ha.
  pose proof (RIMM_curve_monotone x E_clip H1) as Hb.
  rewrite RIMM_curve_0 in Ha. rewrite HV in Hb. lra.
Qed.

Lemma ERIMM_curve_unit (x E_min E_clip : R) :
  0 < E_min -> exp 1 * E_min <= E_clip -> 0 <= x <= E_clip ->
  0 <= ERIMM_curve E_min E_clip x <= 1.
Proof.
  intros HE Ht [H0 H1].
  destruct (ERIMM_curve_E_clip E_min E_clip HE Ht) as [HE' H1c].
  pose proof (ERIMM_curve_monotone E_min E_clip 0 x HE' H0) as Ha.
  pose proof (ERIMM_curve_monotone E_min E_clip x E_clip HE' H1) as Hb.
  rewrite (ERIMM_curve_0 E_min E_clip HE') in Ha. rewrite H1c in Hb. lra.
Qed.

(** X2. In exact arithmetic, inside the encoding range the outputs stay
    inside the code range: for a positive bit depth, a float output is in
    [[0, 1]] and an integer output is an integer of [[0, 2 ^ bit_depth - 1]],
    for [oetf_ROMMRGB] on [[0, 1]], for [oetf_RIMMRGB] on [[0, E_clip]] when
    [E_clip >= 0.018], and for [log_encoding_ERIMMRGB] on [[0, E_clip]] when
    [E_clip >= e * E_min].  (With binary64 rounding the float output at the
    top of the range can exceed [1] in its last place.) *)
Theorem outputs_in_code_range (x : R) (bit_depth : Z) :
  (0 < bit_depth)%Z ->
  (0 <= x <= 1 ->
   (exists u, oetf_ROMMRGB (Num x) bit_depth false = Num u /\ 0 <= u <= 1)
   /\ (exists z, oetf_ROMMRGB (Num x) bit_depth true = Num (IZR z)
                 /\ (0 <= z <= 2 ^ bit_depth - 1)%Z))
  /\ (forall E_clip,
        0.018 <= E_clip -> 0 <= x <= E_clip ->
        (exists u, oetf_RIMMRGB (Num x) bit_depth false E_clip = Ok (Num u)
                   /\ 0 <= u <= 1)
        /\ (exists z,
              oetf_RIMMRGB (Num x) bit_depth true E_clip = Ok (Num (IZR z))
              /\ (0 <= z <= 2 ^ bit_depth - 1)%Z))
  /\ (forall E_min E_clip,
        0 < E_min -> exp 1 * E_min <= E_clip -> 0 <= x <= E_clip ->
        (exists u,
            log_encoding_ERIMMRGB (Num x) bit_depth false E_min E_clip = Num u
            /\ 0 <= u <= 1)
        /\ (exists z,
              log_encoding_ERIMMRGB (Num x) bit_depth true E_min E_clip
              = Num (IZR z)
              /\ (0 <= z <= 2 ^ bit_depth - 1)%Z)).
Proof.
  intros Hb. split; [| split].
  - intros Hx. pose proof (ROMM_curve_unit x Hx) as Hc. split.
    + eexists. rewrite oetf_ROMMRGB_curve by lia. now split.
    + eexists. rewrite oetf_ROMMRGB_code. split; [reflexivity |].
      now apply code_in_range.
  - intros E HE Hx. pose proof (RIMM_curve_unit x E HE Hx) as Hc.
    destruct (RIMM_curve_E_clip E HE) as [_ HVp]. split.
    + eexists. rewrite oetf_RIMMRGB_curve by (lia || lra). now split.
    + eexists. rewrite oetf_RIMMRGB_code by lra. split; [reflexivity |].
      now apply code_in_range.
  - intros E_min E_clip HE Ht Hx.
    pose proof (ERIMM_curve_unit x E_min E_clip HE Ht Hx) as Hc.
    destruct (ERIMM_curve_E_clip E_min E_clip HE Ht) as [HE' _]. split.
    + eexists. rewrite log_encoding_ERIMMRGB_curve by (lia || assumption).
      now split.
    + eexists. rewrite log_encoding_ERIMMRGB_code by assumption.
      split; [reflexivity |]. now apply code_in_range.
Qed.

(** X2 at the input [0.18], the bit depth 8 and the default parameters. *)
Lemma outputs_in_code_range_witness :
  (0 < 8)%Z
  /\ ((exists u, oetf_ROMMRGB (Num 0.18) 8 false = Num u /\ 0 <= u <= 1)
      /\ (exists z, oetf_ROMMRGB (Num 0.18) 8 true = Num (IZR z)
                    /\ (0 <= z <= 2 ^ 8 - 1)%Z))
  /\ ((exists u, oetf_RIMMRGB (Num 0.18) 8 false 2.0 = Ok (Num u)
                 /\ 0 <= u <= 1)
      /\ (exists z, oetf_RIMMRGB (Num 0.18) 8 true 2.0 = Ok (Num (IZR z))
                    /\ (0 <= z <= 2 ^ 8 - 1)%Z))
  /\ ((exists u,
          log_encoding_ERIMMRGB (Num 0.18) 8 false 0.001 316.2 = Num u
          /\ 0 <= u <= 1)
      /\ (exists z,
            log_encoding_ERIMMRGB (Num 0.18) 8 true 0.001 316.2
            = Num (IZR z)
            /\ (0 <= z <= 2 ^ 8 - 1)%Z)).
Proof.
  assert (Hb : (0 < 8)%Z) by lia.
  split; [exact Hb |].
  destruct (outputs_in_code_range 0.18 8 Hb) as [H1 [H2 H3]].
  split; [apply H1; lra |]. split; [apply (H2 2.0); lra |].
  apply (H3 0.001 316.2); [lra | | lra].
  pose proof exp_1_bounds as [_ He]. lra.
Defined.

(** X3. The ends of the range, in exact arithmetic and for a positive bit
    depth.  Each of the six functions sends [0] to [0].  Every encoder sends
    the top of its range to the largest code value, the float [1] and the
    integer [I_max]: at [X = 1] for [oetf_ROMMRGB], at [X = E_clip] for
    [oetf_RIMMRGB] (when [E_clip >= 0.018]) and for [log_encoding_ERIMMRGB]
    (when [E_clip >= e * E_min]).  The decoders send the float code value [1]
    back to the top: to [1] for [eotf_ROMMRGB], to [E_clip] for
    [log_decoding_ERIMMRGB], and to [E_clip] for [eotf_RIMMRGB] when the clip
    level is clear of the knee, [E_clip >= 0.02] (at [E_clip = 0.018] the
    code value [1] is the knee itself, where the comparison is decided in the
    last place). *)
Theorem ends_of_the_range (bit_depth : Z) :
  (0 < bit_depth)%Z ->
  (forall out_int,
      oetf_ROMMRGB (Num 0) bit_depth out_int = Num 0
      /\ oetf_ROMMRGB (Num 1) bit_depth out_int
         = Num (if out_int then I_max bit_depth else 1))
  /\ eotf_ROMMRGB (Num 0) bit_depth false = Num 0
  /\ eotf_ROMMRGB (Num 1) bit_depth false = Num 1
  /\ (forall E_clip out_int,
        0.018 <= E_clip ->
        oetf_RIMMRGB (Num 0) bit_depth out_int E_clip = Ok (Num 0)
        /\ oetf_RIMMRGB (Num E_clip) bit_depth out_int E_clip
           = Ok (Num (if out_int then I_max bit_depth else 1))
        /\ eotf_RIMMRGB (Num 0) bit_depth false E_clip = Ok (Num 0)
        /\ (0.02 <= E_clip ->
            eotf_RIMMRGB (Num 1) bit_depth false E_clip = Ok (Num E_clip)))
  /\ (forall E_min E_clip out_int,
        0 < E_min -> exp 1 * E_min <= E_clip ->
        log_encoding_ERIMMRGB (Num 0) bit_depth out_int E_min E_clip = Num 0
        /\ log_encoding_ERIMMRGB (Num E_clip) bit_depth out_int E_min E_clip
           = Num (if out_int then I_max bit_depth else 1)
        /\ log_decoding_ERIMMRGB (Num 0) bit_depth false E_min E_clip
           = Num 0
        /\ log_decoding_ERIMMRGB (Num 1) bit_depth false E_min E_clip
           = Num E_clip).
Proof.
  intros Hb. pose proof (I_max_pos _ Hb) as HI.
  assert (Hround : forall c, c = 1 ->
            IZR (round_half_even (c * I_max bit_depth)) = I_max bit_depth).
  { intros c ->. rewrite Rmult_1_l, I_max_IZR by lia.
    now rewrite round_half_even_IZR. }
  assert (Hzero : forall c, c = 0 ->
            IZR (round_half_even (c * I_max bit_depth)) = 0).
  { intros c ->. rewrite Rmult_0_l. now rewrite (round_half_even_IZR 0). }
  split; [| split; [| split; [| split]]].
  - intros [|].
    + rewrite !oetf_ROMMRGB_code.
      rewrite (Hzero _ ROMM_curve_0), (Hround _ ROMM_curve_1). now split.
    + rewrite !oetf_ROMMRGB_curve by lia.
      now rewrite ROMM_curve_0, ROMM_curve_1.
  - pose proof (roundtrip_ROMM_exact 0 bit_depth ltac:(lra) Hb) as H.
    unfold roundtrip_ROMM in H.
    now rewrite oetf_ROMMRGB_curve, ROMM_curve_0 in H by lia.
  - pose proof (roundtrip_ROMM_exact 1 bit_depth ltac:(lra) Hb) as H.
    unfold roundtrip_ROMM in H.
    now rewrite oetf_ROMMRGB_curve, ROMM_curve_1 in H by lia.
  - intros E out HE. destruct (RIMM_curve_E_clip E HE) as [HV HVp].
    assert (H1 : RIMM_curve E / V_clip E = 1) by (rewrite HV; field; lra).
    assert (H0 : RIMM_curve 0 / V_clip E = 0)
      by (rewrite RIMM_curve_0; field; lra).
    split; [| split; [| split]].
    + destruct out.
      * rewrite oetf_RIMMRGB_code by lra. now rewrite (Hzero _ H0).
      * rewrite oetf_RIMMRGB_curve by (lia || lra). now rewrite H0.
    + destruct out.
      * rewrite oetf_RIMMRGB_code by lra. now rewrite (Hround _ H1).
      * rewrite oetf_RIMMRGB_curve by (lia || lra). now rewrite H1.
    + pose proof (roundtrip_RIMM_exact 0 bit_depth E ltac:(lra) Hb
                    ltac:(lra) HVp) as H.
      unfold roundtrip_RIMM in H.
      rewrite oetf_RIMMRGB_curve, H0 in H by (lia || lra). exact H.
    + intros _.
      pose proof (roundtrip_RIMM_exact E bit_depth E ltac:(lra) Hb
                    ltac:(lra) HVp) as H.
      unfold roundtrip_RIMM in H.
      rewrite oetf_RIMMRGB_curve, H1 in H by (lia || lra). exact H.
  - intros E_min E_clip out HE Ht.
    destruct (ERIMM_curve_E_clip E_min E_clip HE Ht) as [HE' H1].
    pose proof (ERIMM_curve_0 E_min E_clip HE') as H0.
    split; [| split; [| split]].
    + destruct out.
      * rewrite log_encoding_ERIMMRGB_code by assumption.
        now rewrite (Hzero _ H0).
      * rewrite log_encoding_ERIMMRGB_curve by (lia || assumption).
        now rewrite H0.
    + destruct out.
      * rewrite log_encoding_ERIMMRGB_code by assumption.
        now rewrite (Hround _ H1).
      * rewrite log_encoding_ERIMMRGB_curve by (lia || assumption).
        now rewrite H1.
    + pose proof (roundtrip_ERIMM_exact 0 bit_depth E_min E_clip
                    ltac:(lra) Hb HE') as H.
      unfold roundtrip_ERIMM in H.
      now rewrite log_encoding_ERIMMRGB_curve, H0 in H by (lia || assumption).
    + pose proof (roundtrip_ERIMM_exact E_clip bit_depth E_min E_clip
                    ltac:(lra) Hb HE') as H.
      unfold roundtrip_ERIMM in H.
      now rewrite log_encoding_ERIMMRGB_curve, H1 in H by (lia || assumption).
Qed.

(** X3 at the bit depth 8 and the default parameters, float outputs. *)
Lemma ends_of_the_range_witness :
  (0 < 8)%Z
  /\ (oetf_ROMMRGB (Num 0) 8 false = Num 0
      /\ oetf_ROMMRGB (Num 1) 8 false = Num 1)
  /\ eotf_ROMMRGB (Num 0) 8 false = Num 0
  /\ eotf_ROMMRGB (Num 1) 8 false = Num 1
  /\ (oetf_RIMMRGB (Num 0) 8 false 2.0 = Ok (Num 0)
      /\ oetf_RIMMRGB (Num 2.0) 8 false 2.0 = Ok (Num 1)
      /\ eotf_RIMMRGB (Num 0) 8 false 2.0 = Ok (Num 0)
      /\ eotf_RIMMRGB (Num 1) 8 false 2.0 = Ok (Num 2.0))
  /\ (log_encoding_ERIMMRGB (Num 0) 8 false 0.001 316.2 = Num 0
      /\ log_encoding_ERIMMRGB (Num 316.2) 8 false 0.001 316.2 = Num 1
      /\ log_decoding_ERIMMRGB (Num 0) 8 false 0.001 316.2 = Num 0
      /\ log_decoding_ERIMMRGB (Num 1) 8 false 0.001 316.2 = Num 316.2).
Proof.
  assert (Hb : (0 < 8)%Z) by lia.
  split; [exact Hb |].
  destruct (ends_of_the_range 8 Hb) as [H1 [H2 [H3 [H4 H5]]]].
  split; [exact (H1 false) |]. split; [exact H2 |]. split; [exact H3 |].
  split.
  - destruct (H4 2.0 false ltac:(lra)) as [Ha [Hc [Hd He]]].
    split; [exact Ha |]. split; [exact Hc |]. split; [exact Hd |].
    apply He. lra.
  - apply (H5 0.001 316.2 false); [lra |].
    pose proof exp_1_bounds as [_ He]. lra.
Defined.

(** ** The decoders on finite inputs *)

Lemma eotf_ROMMRGB_finite (y : R) (b : Z) :
  (0 < b)%Z ->
  eotf_ROMMRGB (Num y) b false
  = Num (if Rlt_dec y (16 * E_t_ROMM) then y / 16 else Rpower y 1.8).
Proof.
  intros Hb. rewrite eotf_ROMMRGB_Num by assumption.
  pose proof E_t_ROMM_pos.
  destruct (Rlt_dec y (16 * E_t_ROMM)); [reflexivity |].
  now rewrite fpow_pos by lra.
Qed.

Lemma quotient_le (g V y : R) : 0 < V -> g / V <= y -> g <= V * y.
Proof.
  intros HV H. apply Rmult_le_compat_r with (r := V) in H; [| lra].
  unfold Rdiv in H. rewrite Rmult_assoc, Rinv_l, Rmult_1_r in H by lra. lra.
Qed.

Lemma quotient_lt (g V y : R) : 0 < V -> y < g / V -> V * y < g.
Proof.
  intros HV H. apply Rmult_lt_compat_r with (r := V) in H; [| lra].
  unfold Rdiv in H. rewrite Rmult_assoc, Rinv_l, Rmult_1_r in H by lra. lra.
Qed.

Lemma eotf_RIMMRGB_finite (y : R) (b : Z) (E_clip : R) :
  (0 < b)%Z -> 0 <= E_clip -> 0 < V_clip E_clip ->
  let V := V_clip E_clip in
  let knee := (1.099 * Rpower 0.018 0.45 - 0.099) / V in
  eotf_RIMMRGB (Num y) b false E_clip
  = Ok (Num (if Rlt_dec y knee then V * y / 4.5
             else Rpower ((V * y + 0.099) / 1.099) (1 / 0.45))).
Proof.
  intros Hb HE HV V knee.
  rewrite eotf_RIMMRGB_Num by (assumption || lra). cbv zeta. fold V knee.
  destruct (Rlt_dec y knee) as [Hy | Hy]; [reflexivity |].
  rewrite fpow_pos; [reflexivity |].
  pose proof Rpower_018 as [Hp _].
  assert (HVy : 1.099 * Rpower 0.018 0.45 - 0.099 <= V * y)
    by (apply quotient_le; [exact HV | unfold knee in Hy; lra]).
  lra.
Qed.

(** X4. In exact arithmetic the bit depth plays no part in float mode: the
    products and quotients by [I_max] cancel, so for a finite input and any
    two positive bit depths each of the six functions returns the same
    number, and no [NaN] or infinity comes out of the branch that is not
    selected; for the RIMM pair at every [E_clip >= 0] whose [V_clip] is
    positive, for the ERIMM pair at every [0 < E_min < E_clip].  (With
    binary64 rounding the outputs at two bit depths can differ in the last
    place, and the product by [I_max] overflows next to the largest
    float.) *)
Theorem float_mode_ignores_bit_depth (x : R) (b1 b2 : Z) :
  (0 < b1)%Z -> (0 < b2)%Z ->
  (exists u,
      oetf_ROMMRGB (Num x) b1 false = Num u
      /\ oetf_ROMMRGB (Num x) b2 false = Num u)
  /\ (exists u,
      eotf_ROMMRGB (Num x) b1 false = Num u
      /\ eotf_ROMMRGB (Num x) b2 false = Num u)
  /\ (forall E_clip,
        0 <= E_clip -> 0 < V_clip E_clip ->
        (exists u,
            oetf_RIMMRGB (Num x) b1 false E_clip = Ok (Num u)
            /\ oetf_RIMMRGB (Num x) b2 false E_clip = Ok (Num u))
        /\ (exists u,
              eotf_RIMMRGB (Num x) b1 false E_clip = Ok (Num u)
              /\ eotf_RIMMRGB (Num x) b2 false E_clip = Ok (Num u)))
  /\ (forall E_min E_clip,
        0 < E_min < E_clip ->
        (exists u,
            log_encoding_ERIMMRGB (Num x) b1 false E_min E_clip = Num u
            /\ log_encoding_ERIMMRGB (Num x) b2 false E_min E_clip = Num u)
        /\ (exists u,
              log_decoding_ERIMMRGB (Num x) b1 false E_min E_clip = Num u
              /\ log_decoding_ERIMMRGB (Num x) b2 false E_min E_clip
                 = Num u)).
Proof.
  intros H1 H2. split; [| split; [| split]].
  - eexists. rewrite !oetf_ROMMRGB_curve by lia. now split.
  - eexists. rewrite !eotf_ROMMRGB_finite by assumption. now split.
  - intros E HE HV. split.
    + eexists. rewrite !oetf_RIMMRGB_curve by (lia || lra). now split.
    + eexists. rewrite !eotf_RIMMRGB_finite by assumption. now split.
  - intros E_min E_clip HE. split.
    + eexists. rewrite !log_encoding_ERIMMRGB_curve by (lia || assumption).
      now split.
    + eexists. rewrite !log_decoding_ERIMMRGB_Num by assumption. now split.
Qed.

(** X4 at the input [0.18], the bit depths 8 and 16 and the default
    parameters. *)
Lemma float_mode_ignores_bit_depth_witness :
  (0 < 8)%Z /\ (0 < 16)%Z
  /\ (exists u,
        oetf_ROMMRGB (Num 0.18) 8 false = Num u
        /\ oetf_ROMMRGB (Num 0.18) 16 false = Num u)
  /\ (exists u,
        eotf_ROMMRGB (Num 0.18) 8 false = Num u
        /\ eotf_ROMMRGB (Num 0.18) 16 false = Num u)
  /\ ((exists u,
         oetf_RIMMRGB (Num 0.18) 8 false 2.0 = Ok (Num u)
         /\ oetf_RIMMRGB (Num 0.18) 16 false 2.0 = Ok (Num u))
      /\ (exists u,
            eotf_RIMMRGB (Num 0.18) 8 false 2.0 = Ok (Num u)
            /\ eotf_RIMMRGB (Num 0.18) 16 false 2.0 = Ok (Num u)))
  /\ ((exists u,
         log_encoding_ERIMMRGB (Num 0.18) 8 false 0.001 316.2 = Num u
         /\ log_encoding_ERIMMRGB (Num 0.18) 16 false 0.001 316.2 = Num u)
      /\ (exists u,
            log_decoding_ERIMMRGB (Num 0.18) 8 false 0.001 316.2 = Num u
            /\ log_decoding_ERIMMRGB (Num 0.18) 16 false 0.001 316.2
               = Num u)).
Proof.
  assert (H1 : (0 < 8)%Z) by lia.
  assert (H2 : (0 < 16)%Z) by lia.
  split; [exact H1 |]. split; [exact H2 |].
  destruct (float_mode_ignores_bit_depth 0.18 8 16 H1 H2)
    as [Ha [Hb [Hc Hd]]].
  split; [exact Ha |]. split; [exact Hb |]. split.
  - apply Hc; [lra |]. pose proof V_clip_2 as [_ HV]. lra.
  - apply Hd. lra.
Defined.

(** X5. The decoders read an integer code value as the float code value
    divided by [I_max]: for a bit depth other than zero and every input
    (infinities and [NaN] included), decoding [X_p] with [in_int=True] is
    decoding [X_p / I_max] with [in_int=False]. *)
Theorem in_int_is_scaled_float (X_p : npfloat) (bit_depth : Z) :
  bit_depth <> 0%Z ->
  let scaled := fdiv X_p (Num (I_max bit_depth)) in
  eotf_ROMMRGB X_p bit_depth true = eotf_ROMMRGB scaled bit_depth false
  /\ (forall E_clip,
        eotf_RIMMRGB X_p bit_depth true E_clip
        = eotf_RIMMRGB scaled bit_depth false E_clip)
  /\ (forall E_min E_clip,
        log_decoding_ERIMMRGB X_p bit_depth true E_min E_clip
        = log_decoding_ERIMMRGB scaled bit_depth false E_min E_clip).
Proof.
  intros Hb scaled. apply I_max_nonzero in Hb.
  assert (Hc : fmul scaled (Num (I_max bit_depth)) = X_p)
    by now apply fdiv_fmul_cancel.
  split; [| split].
  - unfold eotf_ROMMRGB. cbn [negb]. now rewrite Hc.
  - intros E. unfold eotf_RIMMRGB. cbn [negb]. now rewrite Hc.
  - intros E_min E_clip. unfold log_decoding_ERIMMRGB. cbn [negb].
    now rewrite Hc.
Qed.

(** X5 at the code value 98 of the docstring. *)
Lemma in_int_is_scaled_float_witness :
  8%Z <> 0%Z
  /\ eotf_ROMMRGB (Num 98) 8 true
     = eotf_ROMMRGB (fdiv (Num 98) (Num (I_max 8))) 8 false.
Proof.
  split; [lia |].
  exact (proj1 (in_int_is_scaled_float (Num 98) 8 ltac:(lia))).
Defined.

(** ** Encoding after decoding *)

Lemma roundtrip_ROMM_any (x : R) (b : Z) :
  (0 < b)%Z -> roundtrip_ROMM (Num x) b = Num x.
Proof.
  intros Hb. unfold roundtrip_ROMM.
  rewrite oetf_ROMMRGB_curve by lia. rewrite eotf_ROMMRGB_finite by assumption.
  unfold ROMM_curve. pose proof E_t_ROMM_pos as Ht. pose proof knee_ROMM as Hk.
  destruct (Rlt_dec x E_t_ROMM) as [Hlt | Hge].
  - destruct (Rlt_dec (16 * x) (16 * E_t_ROMM)); [| lra]. f_equal. lra.
  - assert (Hp : Rpower E_t_ROMM (1 / 1.8) <= Rpower x (1 / 1.8))
      by (apply Rle_Rpower_l; lra).
    destruct (Rlt_dec (Rpower x (1 / 1.8)) (16 * E_t_ROMM)); [lra |].
    f_equal. rewrite Rpower_mult.
    replace (1 / 1.8 * 1.8) with 1 by lra. apply Rpower_1. lra.
Qed.

Lemma E_t_ROMM_power : Rpower (16 * E_t_ROMM) 1.8 = E_t_ROMM.
Proof.
  rewrite knee_ROMM, Rpower_mult.
  replace (1 / 1.8 * 1.8) with 1 by lra.
  apply Rpower_1, E_t_ROMM_pos.
Qed.

Lemma recode_ROMM_any (y : R) (b : Z) :
  (0 < b)%Z -> recode_ROMM (Num y) b = Num y.
Proof.
  intros Hb. unfold recode_ROMM.
  rewrite eotf_ROMMRGB_finite by assumption. rewrite oetf_ROMMRGB_curve by lia.
  unfold ROMM_curve. pose proof E_t_ROMM_pos as Ht.
  destruct (Rlt_dec y (16 * E_t_ROMM)) as [Hlt | Hge].
  - destruct (Rlt_dec (y / 16) E_t_ROMM); [| lra]. f_equal. lra.
  - assert (Hp : Rpower (16 * E_t_ROMM) 1.8 <= Rpower y 1.8)
      by (apply Rle_Rpower_l; lra).
    rewrite E_t_ROMM_power in Hp.
    destruct (Rlt_dec (Rpower y 1.8) E_t_ROMM); [lra |].
    f_equal. rewrite Rpower_mult.
    replace (1.8 * (1 / 1.8)) with 1 by lra. apply Rpower_1. lra.
Qed.

(** X6. [oetf_ROMMRGB] and [eotf_ROMMRGB] are inverse of each other on every
    finite value, negative ones included, in both orders (float mode,
    positive bit depth, exact arithmetic). *)
Theorem ROMM_pair_inverse_both_ways (x : R) (bit_depth : Z) :
  (0 < bit_depth)%Z ->
  roundtrip_ROMM (Num x) bit_depth = Num x
  /\ recode_ROMM (Num x) bit_depth = Num x.
Proof.
  intros Hb. split; [now apply roundtrip_ROMM_any | now apply recode_ROMM_any].
Qed.

(** X6 at the negative input [-0.5]. *)
Lemma ROMM_pair_inverse_both_ways_witness :
  (0 < 8)%Z
  /\ roundtrip_ROMM (Num (-0.5)) 8 = Num (-0.5)
  /\ recode_ROMM (Num (-0.5)) 8 = Num (-0.5).
Proof.
  assert (Hb : (0 < 8)%Z) by lia.
  split; [exact Hb |]. exact (ROMM_pair_inverse_both_ways (-0.5) 8 Hb).
Defined.

Lemma quotient_ge (g V y : R) : 0 < V -> y <= g / V -> V * y <= g.
Proof.
  intros HV H. apply Rmult_le_compat_r with (r := V) in H; [| lra].
  unfold Rdiv in H. rewrite Rmult_assoc, Rinv_l, Rmult_1_r in H by lra. lra.
Qed.

Lemma quotient_gt (g V y : R) : 0 < V -> g / V < y -> g < V * y.
Proof.
  intros HV H. apply Rmult_lt_compat_r with (r := V) in H; [| lra].
  unfold Rdiv in H. rewrite Rmult_assoc, Rinv_l, Rmult_1_r in H by lra. lra.
Qed.

(** X7. [log_encoding_ERIMMRGB] undoes [log_decoding_ERIMMRGB] on every float
    code value [y >= 0]; a negative code value decodes to a negative exposure
    and comes back as [0] (positive bit depth, [0 < E_min < E_clip], exact
    arithmetic). *)
Theorem ERIMM_encoding_after_decoding
    (y : R) (bit_depth : Z) (E_min E_clip : R) :
  (0 < bit_depth)%Z -> 0 < E_min < E_clip ->
  (0 <= y -> recode_ERIMM (Num y) bit_depth E_min E_clip = Num y)
  /\ (y < 0 -> recode_ERIMM (Num y) bit_depth E_min E_clip = Num 0).
Proof.
  intros Hb HE. unfold recode_ERIMM.
  rewrite log_decoding_ERIMMRGB_Num by assumption. cbv zeta.
  rewrite log_encoding_ERIMMRGB_curve by (lia || assumption).
  pose proof exp_1_bounds as He.
  pose proof (log_range_pos _ _ HE) as HD.
  pose proof (ln_E_t_ERIMM E_min ltac:(lra)) as HL.
  unfold ERIMM_curve.
  set (D := ln E_clip - ln E_min) in *.
  set (t := exp 1 * E_min) in *.
  assert (Ht : 0 < t) by (unfold t; nra).
  assert (HiD : 0 < 1 / D) by (apply Rdiv_lt_0_compat; lra).
  split; intros Hy.
  - destruct (Rle_dec y (1 / D)) as [Hle | Hgt].
    + assert (H0 : 0 <= D * (y * t)) by (apply Rmult_le_pos; nra).
      assert (H1 : D * (y * t) <= t).
      { apply quotient_ge in Hle; [| exact HD].
        replace (D * (y * t)) with (D * y * t) by ring.
        assert (D * y * t <= 1 * t) by (apply Rmult_le_compat_r; lra).
        lra. }
      destruct (Rlt_dec (D * (y * t)) 0); [lra |].
      destruct (Rle_dec (D * (y * t)) t); [| lra].
      f_equal. field. split; lra.
    + assert (HyD : 1 < y * D).
      { apply Rnot_le_lt in Hgt. apply quotient_gt in Hgt; lra. }
      assert (Hx : t < exp (y * D + ln E_min)).
      { rewrite <- (exp_ln t) at 1 by exact Ht. apply exp_increasing. lra. }
      destruct (Rlt_dec (exp (y * D + ln E_min)) 0); [lra |].
      destruct (Rle_dec (exp (y * D + ln E_min)) t); [lra |].
      f_equal. rewrite ln_exp. field. lra.
  - destruct (Rle_dec y (1 / D)); [| lra].
    assert (H0 : D * (y * t) < 0).
    { replace (D * (y * t)) with (- (D * t * - y)) by ring.
      assert (0 < D * t * - y)
        by (apply Rmult_lt_0_compat; [apply Rmult_lt_0_compat |]; lra).
      lra. }
    destruct (Rlt_dec (D * (y * t)) 0); [reflexivity | lra].
Qed.

(** X7 at the float code value [0.41] and the default parameters. *)
Lemma ERIMM_encoding_after_decoding_witness :
  (0 < 8)%Z /\ 0 < 0.001 < 316.2
  /\ recode_ERIMM (Num 0.41) 8 0.001 316.2 = Num 0.41.
Proof.
  assert (Hb : (0 < 8)%Z) by lia.
  assert (HE : 0 < 0.001 < 316.2) by lra.
  split; [exact Hb |]. split; [exact HE |].
  apply (ERIMM_encoding_after_decoding 0.41 8 0.001 316.2 Hb HE). lra.
Defined.

(** ** The knee of the RIMM curve *)

Lemma Rpower_018_strict : 0.1638 <= Rpower 0.018 0.45.
Proof.
  replace 0.45 with (INR 9 / INR 20) by (simpl; lra).
  apply Rpower_lower_bound; [lra | lra | lia | lra].
Qed.

Lemma RIMM_knee_gap :
  4.5 * 0.018 + 0.000016 <= 1.099 * Rpower 0.018 0.45 - 0.099.
Proof. pose proof Rpower_018_strict. lra. Qed.

Lemma RIMM_curve_below_knee (x : R) : x < 0.018 -> RIMM_curve x <= 4.5 * 0.018.
Proof.
  intros H. unfold RIMM_curve.
  destruct (Rlt_dec x 0); [lra |]. destruct (Rlt_dec x 0.018); lra.
Qed.

Lemma RIMM_curve_at_knee :
  RIMM_curve 0.018 = 1.099 * Rpower 0.018 0.45 - 0.099.
Proof.
  unfold RIMM_curve.
  destruct (Rlt_dec 0.018 0); [lra |]. destruct (Rlt_dec 0.018 0.018); lra.
Qed.

(** X8. [oetf_RIMMRGB] jumps at [X = 0.018]: the linear segment ends at
    [4.5 * 0.018 = 0.081] and the gamma segment starts above [0.081016], so
    every input below the knee is encoded at least [0.000016 / V_clip] below
    the code value of the knee itself; the two segments do not meet (positive
    bit depth, [E_clip >= 0] with a positive [V_clip]). *)
Theorem oetf_RIMMRGB_jumps_at_knee (x : R) (bit_depth : Z) (E_clip : R) :
  (0 < bit_depth)%Z -> 0 <= E_clip -> 0 < V_clip E_clip -> x < 0.018 ->
  exists u v,
    oetf_RIMMRGB (Num x) bit_depth false E_clip = Ok (Num u)
    /\ oetf_RIMMRGB (Num 0.018) bit_depth false E_clip = Ok (Num v)
    /\ u + 0.000016 / V_clip E_clip <= v.
Proof.
  intros Hb HE HV Hx.
  rewrite !oetf_RIMMRGB_curve by (lia || lra). do 2 eexists.
  split; [reflexivity |]. split; [reflexivity |].
  pose proof (RIMM_curve_below_knee x Hx) as H1.
  pose proof RIMM_knee_gap as H2. rewrite RIMM_curve_at_knee.
  replace (RIMM_curve x / V_clip E_clip + 0.000016 / V_clip E_clip)
    with ((RIMM_curve x + 0.000016) / V_clip E_clip) by (field; lra).
  apply Rdiv_le_compat_pos; lra.
Qed.

(** X8 at the input [0.0179] and the default parameters. *)
Lemma oetf_RIMMRGB_jumps_at_knee_witness :
  (0 < 8)%Z /\ 0 <= 2.0 /\ 0 < V_clip 2.0 /\ 0.0179 < 0.018
  /\ exists u v,
       oetf_RIMMRGB (Num 0.0179) 8 false 2.0 = Ok (Num u)
       /\ oetf_RIMMRGB (Num 0.018) 8 false 2.0 = Ok (Num v)
       /\ u + 0.000016 / V_clip 2.0 <= v.
Proof.
  assert (Hb : (0 < 8)%Z) by lia.
  assert (HE : 0 <= 2.0) by lra.
  assert (HV : 0 < V_clip 2.0) by (pose proof V_clip_2 as [_ H]; lra).
  assert (Hx : 0.0179 < 0.018) by lra.
  split; [exact Hb |]. split; [exact HE |]. split; [exact HV |].
  split; [exact Hx |].
  exact (oetf_RIMMRGB_jumps_at_knee 0.0179 8 2.0 Hb HE HV Hx).
Defined.

Lemma recode_RIMM_value (y : R) (b : Z) (E_clip : R) :
  (0 < b)%Z -> 0 <= E_clip -> 0 < V_clip E_clip ->
  let V := V_clip E_clip in
  let knee := (1.099 * Rpower 0.018 0.45 - 0.099) / V in
  recode_RIMM (Num y) b E_clip
  = Ok (Num (RIMM_curve
               (if Rlt_dec y knee then V * y / 4.5
                else Rpower ((V * y + 0.099) / 1.099) (1 / 0.45))
             / V)).
Proof.
  intros Hb HE HV V knee. unfold recode_RIMM.
  rewrite eotf_RIMMRGB_finite by assumption. cbv zeta. cbn [bind].
  now rewrite oetf_RIMMRGB_curve by (lia || lra).
Qed.

(** Encoding after decoding with the RIMM pair, over the reals: the cases of
    a float code value [y] against [0], [0.081 / V_clip] and the knee. *)
Lemma recode_RIMM_cases (y : R) (bit_depth : Z) (E_clip : R) :
  (0 < bit_depth)%Z -> 0 <= E_clip -> 0 < V_clip E_clip ->
  let V := V_clip E_clip in
  let knee := (1.099 * Rpower 0.018 0.45 - 0.099) / V in
  oetf_RIMMRGB (Num 0.018) bit_depth false E_clip = Ok (Num knee)
  /\ (0 <= y -> V * y < 4.5 * 0.018 ->
      recode_RIMM (Num y) bit_depth E_clip = Ok (Num y))
  /\ (knee <= y -> recode_RIMM (Num y) bit_depth E_clip = Ok (Num y))
  /\ (y < 0 -> recode_RIMM (Num y) bit_depth E_clip = Ok (Num 0))
  /\ (4.5 * 0.018 <= V * y -> y < knee ->
      exists u,
        recode_RIMM (Num y) bit_depth E_clip = Ok (Num u) /\ y < knee <= u).
Proof.
  intros Hb HE HV V knee.
  assert (HV' : 0 < V) by exact HV.
  pose proof RIMM_knee_gap as Hgap.
  pose proof Rpower_018 as [Hp18 _].
  assert (Hknee : 4.5 * 0.018 / V < knee).
  { unfold knee, Rdiv. apply Rmult_lt_compat_r; [| lra].
    now apply Rinv_0_lt_compat. }
  split; [| split; [| split; [| split]]].
  - rewrite oetf_RIMMRGB_curve by (lia || lra). now rewrite RIMM_curve_at_knee.
  - intros H0 H1. rewrite recode_RIMM_value by assumption. cbv zeta.
    fold V knee.
    assert (Hy : y < knee).
    { apply Rle_lt_trans with (4.5 * 0.018 / V); [| exact Hknee].
      replace y with (V * y / V) by (field; lra).
      apply Rdiv_le_compat_pos; lra. }
    destruct (Rlt_dec y knee); [| lra].
    assert (Hx : 0 <= V * y / 4.5 < 0.018).
    { split; [| lra]. assert (0 <= V * y) by (apply Rmult_le_pos; lra). lra. }
    unfold RIMM_curve.
    destruct (Rlt_dec (V * y / 4.5) 0); [lra |].
    destruct (Rlt_dec (V * y / 4.5) 0.018); [| lra].
    do 2 f_equal. field. lra.
  - intros Hy. rewrite recode_RIMM_value by assumption. cbv zeta.
    fold V knee.
    destruct (Rlt_dec y knee); [lra |].
    assert (HVy : 1.099 * Rpower 0.018 0.45 - 0.099 <= V * y)
      by (apply quotient_le; [exact HV' | exact Hy]).
    set (p := (V * y + 0.099) / 1.099).
    assert (Hp : Rpower 0.018 0.45 <= p) by (unfold p; lra).
    assert (Hp0 : 0 < p) by lra.
    assert (Hx : 0.018 <= Rpower p (1 / 0.45)).
    { rewrite <- (Rpower_inverse 0.018 0.45) at 1 by lra.
      apply Rle_Rpower_l; [lra |]. split; [apply Rpower_pos | exact Hp]. }
    unfold RIMM_curve.
    destruct (Rlt_dec (Rpower p (1 / 0.45)) 0); [lra |].
    destruct (Rlt_dec (Rpower p (1 / 0.45)) 0.018); [lra |].
    rewrite Rpower_mult. replace (1 / 0.45 * 0.45) with 1 by lra.
    rewrite Rpower_1 by exact Hp0.
    do 2 f_equal. unfold p. field. lra.
  - intros Hy. rewrite recode_RIMM_value by assumption. cbv zeta.
    fold V knee.
    assert (0 < knee) by (unfold knee; apply Rdiv_lt_0_compat; lra).
    destruct (Rlt_dec y knee); [| lra].
    assert (Hx : V * y / 4.5 < 0).
    { assert (0 < V * - y) by (apply Rmult_lt_0_compat; lra). lra. }
    unfold RIMM_curve.
    destruct (Rlt_dec (V * y / 4.5) 0); [| lra].
    do 2 f_equal. field. lra.
  - intros H0 Hy. rewrite recode_RIMM_value by assumption. cbv zeta.
    fold V knee.
    destruct (Rlt_dec y knee); [| lra].
    eexists. split; [reflexivity |]. split; [exact Hy |].
    unfold knee. apply Rdiv_le_compat_pos; [exact HV' |].
    rewrite <- RIMM_curve_at_knee. apply RIMM_curve_monotone. lra.
Qed.

Lemma product_le (g V y : R) : 0 < V -> g <= V * y -> g / V <= y.
Proof.
  intros HV H. apply Rmult_le_reg_r with V; [exact HV |].
  unfold Rdiv. rewrite Rmult_assoc, Rinv_l, Rmult_1_r by lra. lra.
Qed.

Lemma product_lt (g V y : R) : 0 < V -> V * y < g -> y < g / V.
Proof.
  intros HV H. apply Rmult_lt_reg_r with V; [exact HV |].
  unfold Rdiv. rewrite Rmult_assoc, Rinv_l, Rmult_1_r by lra. lra.
Qed.

(** A rational power is bounded above by [c] as soon as [a ^ p <= c ^ q]. *)
Lemma Rpower_upper_bound (a c : R) (p q : nat) :
  0 < a -> 0 < c -> (0 < q)%nat -> a ^ p <= c ^ q ->
  Rpower a (INR p / INR q) <= c.
Proof.
  intros Ha Hc Hq Hle.
  destruct (Rle_lt_dec (Rpower a (INR p / INR q)) c) as [H | H]; [exact H |].
  exfalso.
  assert (HQ : 0 < INR q) by now apply lt_0_INR.
  assert (Hlt : Rpower c (INR q) < Rpower (Rpower a (INR p / INR q)) (INR q)).
  { apply Rlt_Rpower_l; [exact HQ |]. split; [exact Hc | exact H]. }
  rewrite Rpower_mult in Hlt.
  replace (INR p / INR q * INR q) with (INR p) in Hlt by (field; lra).
  rewrite !Rpower_pow in Hlt by assumption. lra.
Qed.

(** The gamma segment starts between [0.0812] and [0.0813]. *)
Lemma RIMM_knee_bounds :
  0.0812 < 1.099 * Rpower 0.018 0.45 - 0.099 < 0.0813.
Proof.
  assert (H1 : 0.16397 <= Rpower 0.018 0.45).
  { replace 0.45 with (INR 9 / INR 20) by (simpl; lra).
    apply Rpower_lower_bound; [lra | lra | lia | lra]. }
  assert (H2 : Rpower 0.018 0.45 <= 0.16405).
  { replace 0.45 with (INR 9 / INR 20) by (simpl; lra).
    apply Rpower_upper_bound; [lra | lra | lia | lra]. }
  lra.
Qed.

Lemma V_clip_2_upper : V_clip 2.0 <= 1.5.
Proof.
  destruct V_clip_2 as [-> _].
  assert (H : Rpower 2 0.45 <= 1.42).
  { replace 0.45 with (INR 9 / INR 20) by (simpl; lra).
    apply Rpower_upper_bound; [lra | lra | lia | lra]. }
  lra.
Qed.

(** X9. Encoding after decoding with the RIMM pair, on a float code value
    [y], in exact arithmetic (positive bit depth, clip level at or above the
    knee, [E_clip >= 0.018]).  With [m = V_clip * y]: the result is [0] for a
    negative [y]; it is [y] when [0 <= m <= 0.0809], where both functions
    take their linear segments, and when [m >= 0.0813], where both take
    their gamma segments; and for [0.0811 <= m <= 0.0812], code values that
    the encoder never produces, the linear segment of the decoder gives an
    exposure above [0.018] and the result is at least the knee
    [oetf_RIMMRGB(0.018)], above [y].  The margins keep [m] clear of [0.081]
    and of the knee, about [0.08125], where the comparisons [X < 0.018] and
    [X_p / I_max < knee] are decided in the last place. *)
Theorem RIMM_encoding_after_decoding (y : R) (bit_depth : Z) (E_clip : R) :
  (0 < bit_depth)%Z -> 0.018 <= E_clip ->
  let V := V_clip E_clip in
  (y < 0 -> recode_RIMM (Num y) bit_depth E_clip = Ok (Num 0))
  /\ (0 <= y -> V * y <= 0.0809 ->
      recode_RIMM (Num y) bit_depth E_clip = Ok (Num y))
  /\ (0.0813 <= V * y ->
      recode_RIMM (Num y) bit_depth E_clip = Ok (Num y))
  /\ (0.0811 <= V * y <= 0.0812 ->
      exists u knee,
        recode_RIMM (Num y) bit_depth E_clip = Ok (Num u)
        /\ oetf_RIMMRGB (Num 0.018) bit_depth false E_clip = Ok (Num knee)
        /\ y < knee <= u).
Proof.
  intros Hb HE V.
  pose proof (V_clip_from_knee E_clip HE) as HV81. fold V in HV81.
  assert (HE0 : 0 <= E_clip) by lra.
  assert (HV : 0 < V_clip E_clip) by (fold V; lra).
  pose proof RIMM_knee_bounds as [Hk1 Hk2].
  destruct (recode_RIMM_cases y bit_depth E_clip Hb HE0 HV)
    as [Hknee [Hlin [Hgam [Hneg Hgap]]]].
  fold V in Hknee, Hlin, Hgam, Hgap.
  split; [exact Hneg |]. split; [| split].
  - intros H0 H1. apply Hlin; [exact H0 | lra].
  - intros H1. apply Hgam. apply product_le; lra.
  - intros [H1 H2].
    assert (Hy : y < (1.099 * Rpower 0.018 0.45 - 0.099) / V).
    { apply product_lt; lra. }
    destruct (Hgap ltac:(lra) Hy) as [u [Hu Hyu]].
    exists u, ((1.099 * Rpower 0.018 0.45 - 0.099) / V).
    split; [exact Hu |]. split; [exact Hknee | exact Hyu].
Qed.

(** X9 at the bit depth 8 and the default [E_clip = 2.0], on the float code
    values [-0.1], [0.05], [0.5] and [0.08115 / V_clip]. *)
Lemma RIMM_encoding_after_decoding_witness :
  (0 < 8)%Z /\ 0.018 <= 2.0
  /\ recode_RIMM (Num (-0.1)) 8 2.0 = Ok (Num 0)
  /\ recode_RIMM (Num 0.05) 8 2.0 = Ok (Num 0.05)
  /\ recode_RIMM (Num 0.5) 8 2.0 = Ok (Num 0.5)
  /\ (exists u knee,
        recode_RIMM (Num (0.08115 / V_clip 2.0)) 8 2.0 = Ok (Num u)
        /\ oetf_RIMMRGB (Num 0.018) 8 false 2.0 = Ok (Num knee)
        /\ 0.08115 / V_clip 2.0 < knee <= u).
Proof.
  assert (Hb : (0 < 8)%Z) by lia.
  assert (HE : 0.018 <= 2.0) by lra.
  pose proof V_clip_2 as [_ HV1]. pose proof V_clip_2_upper as HV2.
  split; [exact Hb |]. split; [exact HE |].
  split; [| split; [| split]].
  - destruct (RIMM_encoding_after_decoding (-0.1) 8 2.0 Hb HE) as [H _].
    apply H. lra.
  - destruct (RIMM_encoding_after_decoding 0.05 8 2.0 Hb HE) as [_ [H _]].
    apply H; [lra | nra].
  - destruct (RIMM_encoding_after_decoding 0.5 8 2.0 Hb HE) as [_ [_ [H _]]].
    apply H. nra.
  - destruct (RIMM_encoding_after_decoding (0.08115 / V_clip 2.0) 8 2.0 Hb HE)
      as [_ [_ [_ H]]].
    apply H.
    replace (V_clip 2.0 * (0.08115 / V_clip 2.0)) with 0.08115
      by (field; lra).
    lra.
Defined.

(** X10. [eotf_RIMMRGB] is not monotone around its knee: the code value
    [0.08101 / V_clip], below the knee, decodes through the linear branch to
    [0.08101 / 4.5 > 0.018], while the knee itself, a larger code value,
    decodes to [0.018] (positive bit depth, [E_clip >= 0] with a positive
    [V_clip]). *)
Theorem eotf_RIMMRGB_not_monotone (bit_depth : Z) (E_clip : R) :
  (0 < bit_depth)%Z -> 0 <= E_clip -> 0 < V_clip E_clip ->
  exists y1 y2 d1 d2,
    y1 < y2
    /\ eotf_RIMMRGB (Num y1) bit_depth false E_clip = Ok (Num d1)
    /\ eotf_RIMMRGB (Num y2) bit_depth false E_clip = Ok (Num d2)
    /\ d2 < d1.
Proof.
  intros Hb HE HV.
  pose proof RIMM_knee_gap as Hgap.
  set (V := V_clip E_clip) in *.
  set (g := 1.099 * Rpower 0.018 0.45 - 0.099) in *.
  assert (Hlt : 0.08101 / V < g / V).
  { unfold Rdiv. apply Rmult_lt_compat_r; [| lra].
    now apply Rinv_0_lt_compat. }
  exists (0.08101 / V), (g / V), (0.08101 / 4.5), 0.018.
  split; [exact Hlt |].
  rewrite !eotf_RIMMRGB_finite by assumption. cbv zeta. fold V g.
  destruct (Rlt_dec (0.08101 / V) (g / V)); [| lra].
  destruct (Rlt_dec (g / V) (g / V)); [lra |].
  split; [| split; [| lra]].
  - do 2 f_equal. field. lra.
  - do 2 f_equal.
    replace ((V * (g / V) + 0.099) / 1.099) with (Rpower 0.018 0.45)
      by (unfold g; field; lra).
    apply Rpower_inverse; lra.
Qed.

(** X10 at the default parameters. *)
Lemma eotf_RIMMRGB_not_monotone_witness :
  (0 < 8)%Z /\ 0 <= 2.0 /\ 0 < V_clip 2.0
  /\ exists y1 y2 d1 d2,
       y1 < y2
       /\ eotf_RIMMRGB (Num y1) 8 false 2.0 = Ok (Num d1)
       /\ eotf_RIMMRGB (Num y2) 8 false 2.0 = Ok (Num d2)
       /\ d2 < d1.
Proof.
  assert (Hb : (0 < 8)%Z) by lia.
  assert (HE : 0 <= 2.0) by lra.
  assert (HV : 0 < V_clip 2.0) by (pose proof V_clip_2 as [_ H]; lra).
  split; [exact Hb |]. split; [exact HE |]. split; [exact HV |].
  exact (eotf_RIMMRGB_not_monotone 8 2.0 Hb HE HV).
Defined.

(** ** The knee of the ERIMM curve *)

Lemma continuity_pt_pieces_le (g h : R -> R) (a : R) :
  continuity_pt g a -> continuity_pt h a -> g a = h a ->
  continuity_pt (fun x => if Rle_dec x a then g x else h x) a.
Proof.
  intros Hg Hh E eps He.
  destruct (Hg eps He) as [d1 [Hd1 H1]].
  destruct (Hh eps He) as [d2 [Hd2 H2]].
  exists (Rmin d1 d2). split; [now apply Rmin_pos |].
  intros x [HD Hx].
  assert (Hx1 : dist R_met x a < d1)
    by (eapply Rlt_le_trans; [exact Hx | apply Rmin_l]).
  assert (Hx2 : dist R_met x a < d2)
    by (eapply Rlt_le_trans; [exact Hx | apply Rmin_r]).
  destruct (Rle_dec a a) as [_ | Ha]; [| lra].
  destruct (Rle_dec x a).
  - apply H1. now split.
  - rewrite E. apply H2. now split.
Qed.

(** Continuity at a point depends on the values near the point only. *)
Lemma continuity_pt_local (f g : R -> R) (a d : R) :
  0 < d -> (forall x, Rabs (x - a) < d -> f x = g x) ->
  continuity_pt g a -> continuity_pt f a.
Proof.
  intros Hd E Hg eps He. destruct (Hg eps He) as [d1 [Hd1 H1]].
  exists (Rmin d d1). split; [now apply Rmin_pos |].
  intros x [HD Hx].
  assert (Hxd : Rabs (x - a) < d)
    by (eapply Rlt_le_trans; [exact Hx | apply Rmin_l]).
  assert (Hx1 : dist R_met x a < d1)
    by (eapply Rlt_le_trans; [exact Hx | apply Rmin_r]).
  rewrite (E x Hxd), (E a) by (rewrite Rminus_diag, Rabs_R0; exact Hd).
  apply H1. now split.
Qed.

Lemma continuity_pt_log_segment (l D a : R) :
  0 < a -> continuity_pt (fun x => (ln x - l) / D) a.
Proof.
  intros Ha. apply derivable_continuous_pt.
  exists (/ a * / D).
  assert (H : derivable_pt_lim (fun x => (ln x - l) * / D) a
                ((/ a - 0) * / D + (ln a - l) * 0)).
  { apply (derivable_pt_lim_mult (fun x => ln x - l) (fun _ => / D)).
    - apply (derivable_pt_lim_minus ln (fun _ => l)).
      + now apply derivable_pt_lim_ln.
      + apply derivable_pt_lim_const.
    - apply derivable_pt_lim_const. }
  replace (/ a * / D) with ((/ a - 0) * / D + (ln a - l) * 0) by ring.
  exact H.
Qed.

(** X11. The two segments of [log_encoding_ERIMMRGB] meet at
    [E_t = e * E_min]: the ramp and the logarithm both give
    [1 / (ln E_clip - ln E_min)] there, and the float output, as a function
    of a finite input, is continuous at [E_t] (bit depth other than zero,
    [0 < E_min < E_clip]). *)
Theorem ERIMM_segments_meet_at_E_t (bit_depth : Z) (E_min E_clip : R) :
  bit_depth <> 0%Z -> 0 < E_min < E_clip ->
  let E_t := exp 1 * E_min in
  let D := ln E_clip - ln E_min in
  E_t / E_t / D = (ln E_t - ln E_min) / D
  /\ log_encoding_ERIMMRGB (Num E_t) bit_depth false E_min E_clip
     = Num (1 / D)
  /\ exists f,
       (forall x,
           log_encoding_ERIMMRGB (Num x) bit_depth false E_min E_clip
           = Num (f x))
       /\ continuity_pt f E_t.
Proof.
  intros Hb HE E_t D.
  pose proof exp_1_bounds as He.
  pose proof (log_range_pos _ _ HE) as HD. fold D in HD.
  pose proof (ln_E_t_ERIMM E_min ltac:(lra)) as HL. fold E_t in HL.
  assert (Ht : 0 < E_t) by (unfold E_t; nra).
  assert (Hmeet : E_t / E_t / D = (ln E_t - ln E_min) / D).
  { rewrite HL. field. split; lra. }
  split; [exact Hmeet |]. split.
  - rewrite log_encoding_ERIMMRGB_curve by assumption.
    unfold ERIMM_curve. fold E_t D.
    destruct (Rlt_dec E_t 0); [lra |].
    destruct (Rle_dec E_t E_t); [| lra].
    f_equal. field. split; lra.
  - exists (ERIMM_curve E_min E_clip). split.
    + intros x. now apply log_encoding_ERIMMRGB_curve.
    + apply (continuity_pt_local _
               (fun x => if Rle_dec x E_t then x / E_t / D
                         else (ln x - ln E_min) / D) E_t E_t Ht).
      * intros x Hx. unfold ERIMM_curve. fold E_t D.
        apply Rabs_def2 in Hx.
        destruct (Rlt_dec x 0); [lra | reflexivity].
      * apply (continuity_pt_pieces_le (fun x => x / E_t / D)
                 (fun x => (ln x - ln E_min) / D)).
        -- apply (continuity_pt_ext _ (fun x => (/ E_t * / D) * x)).
           ++ intros x. field. split; lra.
           ++ apply continuity_pt_scale.
        -- now apply continuity_pt_log_segment.
        -- exact Hmeet.
Qed.

(** X11 at the default parameters. *)
Lemma ERIMM_segments_meet_at_E_t_witness :
  8%Z <> 0%Z /\ 0 < 0.001 < 316.2
  /\ log_encoding_ERIMMRGB (Num (exp 1 * 0.001)) 8 false 0.001 316.2
     = Num (1 / (ln 316.2 - ln 0.001)).
Proof.
  assert (Hb : 8%Z <> 0%Z) by lia.
  assert (HE : 0 < 0.001 < 316.2) by lra.
  split; [exact Hb |]. split; [exact HE |].
  exact (proj1 (proj2 (ERIMM_segments_meet_at_E_t 8 0.001 316.2 Hb HE))).
Defined.

(** ** The records of the store *)

(** A lookup that succeeds returns one of the two records, under its
    lower-cased name. *)
Lemma getitem_store_inv (item : string) (r : RGB_SpectralSensitivities) :
  getitem DSL_CAMERAS_RGB_SPECTRAL_SENSITIVITIES item = inl r ->
  (lower item = "nikon 5100 (npl)" /\ r = Nikon_5100_NPL)
  \/ (lower item = "sigma sdmerill (npl)" /\ r = Sigma_SDMerill_NPL).
Proof.
  unfold getitem. rewrite store_data. intros H.
  destruct (decide (lower item = "sigma sdmerill (npl)")) as [ES | NS].
  - right. split; [exact ES |].
    rewrite ES, lookup_insert_eq in H. now inversion H.
  - rewrite lookup_insert_ne in H by (intros E; apply NS; now rewrite <- E).
    destruct (decide (lower item = "nikon 5100 (npl)")) as [EN | NN].
    + left. split; [exact EN |].
      rewrite EN, lookup_insert_eq in H. now inversion H.
    + rewrite lookup_insert_ne in H
        by (intros E; apply NN; now rewrite <- E).
      rewrite lookup_empty in H. discriminate H.
Qed.

Lemma Sigma_data :
  data Sigma_SDMerill_NPL
  = {| red := Sigma_SDMerill_NPL_red;
       green := Sigma_SDMerill_NPL_green;
       blue := Sigma_SDMerill_NPL_blue |}.
Proof. reflexivity. Qed.

Lemma Nikon_well_sampled : well_sampled 380%Q 5%Q 81 Nikon_5100_NPL = true.
Proof. unfold well_sampled. rewrite Nikon_data. vm_compute. reflexivity. Qed.

Lemma Sigma_well_sampled :
  well_sampled 400%Q 10%Q 29 Sigma_SDMerill_NPL = true.
Proof. unfold well_sampled. rewrite Sigma_data. vm_compute. reflexivity. Qed.

Lemma DATA_Nikon :
  DSL_CAMERAS_RGB_SPECTRAL_SENSITIVITIES_DATA !! name Nikon_5100_NPL
  = Some (data Nikon_5100_NPL).
Proof. reflexivity. Qed.

Lemma DATA_Sigma :
  DSL_CAMERAS_RGB_SPECTRAL_SENSITIVITIES_DATA !! name Sigma_SDMerill_NPL
  = Some (data Sigma_SDMerill_NPL).
Proof. reflexivity. Qed.

(** X12. Whatever name is looked up, a record that the store returns
    carries that name up to the case of its letters, is returned again under
    its own name, holds as data the entry of
    [DSL_CAMERAS_RGB_SPECTRAL_SENSITIVITIES_DATA] under its own name, and has
    its three tables on one regular wavelength grid (81 samples from 380 nm
    every 5 nm, or 29 samples from 400 nm every 10 nm) with every
    sensitivity in [[0, 1]] and the peak at exactly [1]. *)
Theorem store_records_are_well_sampled
    (item : string) (r : RGB_SpectralSensitivities) :
  getitem DSL_CAMERAS_RGB_SPECTRAL_SENSITIVITIES item = inl r ->
  lower (name r) = lower item
  /\ getitem DSL_CAMERAS_RGB_SPECTRAL_SENSITIVITIES (name r) = inl r
  /\ DSL_CAMERAS_RGB_SPECTRAL_SENSITIVITIES_DATA !! name r = Some (data r)
  /\ (well_sampled 380%Q 5%Q 81 r = true
      \/ well_sampled 400%Q 10%Q 29 r = true).
Proof.
  intros H.
  destruct (getitem_store_inv item r H) as [[E ->] | [E ->]].
  - split; [now rewrite E |].
    split; [exact getitem_Nikon |].
    split; [exact DATA_Nikon |].
    left. exact Nikon_well_sampled.
  - split; [now rewrite E |].
    split; [exact getitem_Sigma |].
    split; [exact DATA_Sigma |].
    right. exact Sigma_well_sampled.
Qed.

Lemma store_records_are_well_sampled_witness :
  lower (name Sigma_SDMerill_NPL) = lower "SIGMA sdmerill (npl)"
  /\ getitem DSL_CAMERAS_RGB_SPECTRAL_SENSITIVITIES (name Sigma_SDMerill_NPL)
     = inl Sigma_SDMerill_NPL
  /\ DSL_CAMERAS_RGB_SPECTRAL_SENSITIVITIES_DATA !! name Sigma_SDMerill_NPL
     = Some (data Sigma_SDMerill_NPL)
  /\ (well_sampled 380%Q 5%Q 81 Sigma_SDMerill_NPL = true
      \/ well_sampled 400%Q 10%Q 29 Sigma_SDMerill_NPL = true).
Proof.
  apply (store_records_are_well_sampled "SIGMA sdmerill (npl)").
  rewrite (getitem_lower _ "SIGMA sdmerill (npl)" "Sigma SDMerill (NPL)")
    by reflexivity.
  exact getitem_Sigma.
Defined.
